(** * scenoRITA grading metric: speeding and off-road detection

    A shallow embedding of [grading_metrics/speeding.py]: the routing scan
    [get_next_lanes] and the single pass [walk_msg_section] over a recorded
    message stream, together with the properties of the pass.

    Conventions of the embedding.
    - Python floats (timestamps, speeds, distances) are exact rationals [Q];
      [==] on floats is [Qeq_bool], [<=] is [Qle_bool].  Rounding, the
      infinities, nan and float overflow are outside the embedding: the
      statements are about passes whose float operations stay in range.  In
      particular the [OverflowError] that [x**2] raises in [calculate_speed]
      for a velocity component beyond about 1.3e154 is not an [exception] of
      the embedding.
    - Lane ids are strings; the [lanes] dict is a [gmap string Lane] and the
      [traveled_lanes] set a [gset string].
    - An attribute read on a payload that does not carry the attribute raises
      [AttributeError]; [lanes[k]] on an absent key raises [KeyError].  The
      loop body returns an [outcome]: the state reached, normally or together
      with the exception that left the loop.
    - The map tools, the geometry and [math.sqrt] are collaborators outside
      this module; they are the fields of the class [Collaborators]. *)

From Stdlib Require Import QArith Lqa.
From stdpp Require Import gmap strings list.

Local Open Scope Z_scope.

(** ** Exceptions and outcomes *)

Inductive exception := AttributeError | KeyError | IndexError.

Inductive result (A : Type) :=
  | Ok (a : A)
  | Err (e : exception).
Arguments Ok {A} a.
Arguments Err {A} e.

(** ** Messages *)

Record Segment := { segment_id : string }.
Record Passage := { segment : list Segment }.
Record Road := { passage : list Passage }.
Record RoutingResponse := { road : list Road }.

Module Vec.
Record t := { x : Q; y : Q }.
End Vec.

Record Pose := { position : Vec.t; linear_velocity : Vec.t }.

Record Header := { timestamp_sec : Q }.

(** The decoded payload.  A field is [None] when the payload object has no
    such attribute: [header] stands for [parsed_msg.header], [routing] for the
    chain [parsed_msg.debug.planning_data.routing], [pose] for
    [parsed_msg.pose]. *)
Record Payload := {
  header : option Header;
  routing : option RoutingResponse;
  pose : option Pose
}.

(** One element of [messages]: the tuple [(channel_name, _, parsed_msg, _, _)]
    without the three components the loop ignores. *)
Record Message := { channel_name : string; parsed_msg : Payload }.

Definition OFF_LANE_THRESHOLD : Q := 5.
Definition sys_maxsize : Z := 9223372036854775807.

Definition Qlt_bool (a b : Q) : bool := negb (Qle_bool b a).

(** ** [get_next_lanes] *)

(** Body of the innermost loop: the pair is [(next_lanes, is_hit)]. *)
Definition visit_segment (current_lane_id : option string)
    (acc : list string * bool) (seg : Segment) : list string * bool :=
  let lane_id := segment_id seg in
  let is_hit := if decide (Some lane_id = current_lane_id) then true else acc.2 in
  let next_lanes :=
    if is_hit || bool_decide (current_lane_id = None)
    then acc.1 ++ [lane_id] else acc.1 in
  (next_lanes, is_hit).

Definition visit_passage (current_lane_id : option string)
    (acc : list string * bool) (p : Passage) : list string * bool :=
  fold_left (visit_segment current_lane_id) (segment p) acc.

Definition visit_road (current_lane_id : option string)
    (acc : list string * bool) (r : Road) : list string * bool :=
  fold_left (visit_passage current_lane_id) (passage r) acc.

Definition get_next_lanes (routing_response_msg : RoutingResponse)
    (current_lane_id : option string) : list string :=
  (fold_left (visit_road current_lane_id) (road routing_response_msg) ([], false)).1.

(** The lane ids of a plan in the order the three loops visit them. *)
Definition plan_ids (r : RoutingResponse) : list string :=
  p ← road r; q ← passage p; segment_id <$> segment q.

(** ** The lane disambiguator (lines 120-138 of the pass) *)

(** [list.index]: the first position of [v], [None] for [ValueError]. *)
Fixpoint index (l : list string) (v : string) : option nat :=
  match l with
  | [] => None
  | a :: l' => if decide (a = v) then Some 0%nat else S <$> index l' v
  end.

(** Body of [for suspect_lane in current_lanes]: the pair is
    [(back_lane, loc)]. *)
Definition scan_suspect (next_lanes : list string) (traveled_lanes : gset string)
    (acc : option string * option nat) (suspect_lane : string)
    : option string * option nat :=
  match index next_lanes suspect_lane with
  | Some i => (acc.1, Some i)
  | None =>
      if decide (suspect_lane ∈ traveled_lanes)
      then (Some suspect_lane, acc.2) else acc
  end.

(** The new value of [current_lane], from the candidates the resolver
    returned.  The three cases are [len == 1], [len > 1] and the [else]. *)
Definition select_lane (current_lanes next_lanes : list string)
    (traveled_lanes : gset string) : result (option string) :=
  match current_lanes with
  | [] => Ok None
  | [only] => Ok (Some only)
  | first :: _ =>
      let scan :=
        fold_left (scan_suspect next_lanes traveled_lanes) current_lanes (None, None) in
      match scan.2 with
      | Some loc =>
          match next_lanes !! loc with
          | Some l => Ok (Some l)
          | None => Err IndexError
          end
      | None =>
          match scan.1 with
          | Some back_lane => Ok (Some back_lane)
          | None => Ok (Some first)
          end
      end
  end.

(** ** Collaborators

    What the pass calls outside this module: [map_tools] (the lane type, the
    candidate query and the lane line string), [construct_adc_polygon] of the
    collision metric, the two [distance] methods of the geometry library and
    [math.sqrt]. *)
Class Collaborators := {
  Lane : Type;
  LineString : Type;
  Polygon : Type;
  speed_limit : Lane → Q;
  math_sqrt : Q → Q;
  efficient_fetch_lane :
    Q → Q → option string → gmap string Lane → option (list string) → list string;
  construct_lane_linestring : Lane → LineString;
  construct_adc_polygon : Pose → Polygon;
  polygon_distance : Polygon → LineString → Q;
  point_distance : Q → Q → LineString → Q
}.

(** The arguments of one call of [efficient_fetch_lane], the [lanes] dict
    apart (it is the same object in every call). *)
Record FetchCall := {
  call_x : Q;
  call_y : Q;
  call_current_lane : option string;
  call_priority_lanes : option (list string)
}.

(** ** The local variables of [walk_msg_section]

    [dist_list] is the caller's list, appended to in place.  [fetch_log] is
    not a variable of the program: it is the trace of the calls of
    [efficient_fetch_lane] made so far. *)
Record state := {
  traveled_lanes : gset string;
  current_lane : option string;
  priority_lanes : option (list string);
  off_road_candidate_lane : option string;
  intersect_start_time : option Q;
  next_lanes : list string;
  min_speed : Q;
  dist_to_boundary : Q;
  speed_diff : Q;
  localization_num : Z;
  init_timestamp : option Q;
  dist_list : list Q;
  fetch_log : list FetchCall
}.

Inductive outcome :=
  | Normal (s : state)
  | Raised (e : exception) (s : state).

Definition state_of (o : outcome) : state :=
  match o with Normal s => s | Raised _ s => s end.

Definition initial_state (dist_list0 : list Q) : state :=
  {| traveled_lanes := ∅; current_lane := None; priority_lanes := None;
     off_road_candidate_lane := None; intersect_start_time := None;
     next_lanes := []; min_speed := inject_Z sys_maxsize;
     dist_to_boundary := inject_Z sys_maxsize; speed_diff := 0;
     localization_num := 0; init_timestamp := None;
     dist_list := dist_list0; fetch_log := [] |}.

(** Assignments to one variable. *)
Definition set_traveled_lanes (v : gset string) (s : state) : state :=
  {| traveled_lanes := v; current_lane := current_lane s;
     priority_lanes := priority_lanes s;
     off_road_candidate_lane := off_road_candidate_lane s;
     intersect_start_time := intersect_start_time s;
     next_lanes := next_lanes s; min_speed := min_speed s;
     dist_to_boundary := dist_to_boundary s; speed_diff := speed_diff s;
     localization_num := localization_num s; init_timestamp := init_timestamp s;
     dist_list := dist_list s; fetch_log := fetch_log s |}.

Definition set_current_lane (v : option string) (s : state) : state :=
  {| traveled_lanes := traveled_lanes s; current_lane := v;
     priority_lanes := priority_lanes s;
     off_road_candidate_lane := off_road_candidate_lane s;
     intersect_start_time := intersect_start_time s;
     next_lanes := next_lanes s; min_speed := min_speed s;
     dist_to_boundary := dist_to_boundary s; speed_diff := speed_diff s;
     localization_num := localization_num s; init_timestamp := init_timestamp s;
     dist_list := dist_list s; fetch_log := fetch_log s |}.

(** [off_road_candidate_lane] and [intersect_start_time] are always assigned
    together. *)
Definition set_off_road (c : option string) (t : option Q) (s : state) : state :=
  {| traveled_lanes := traveled_lanes s; current_lane := current_lane s;
     priority_lanes := priority_lanes s;
     off_road_candidate_lane := c; intersect_start_time := t;
     next_lanes := next_lanes s; min_speed := min_speed s;
     dist_to_boundary := dist_to_boundary s; speed_diff := speed_diff s;
     localization_num := localization_num s; init_timestamp := init_timestamp s;
     dist_list := dist_list s; fetch_log := fetch_log s |}.

Definition set_next_lanes (v : list string) (s : state) : state :=
  {| traveled_lanes := traveled_lanes s; current_lane := current_lane s;
     priority_lanes := priority_lanes s;
     off_road_candidate_lane := off_road_candidate_lane s;
     intersect_start_time := intersect_start_time s;
     next_lanes := v; min_speed := min_speed s;
     dist_to_boundary := dist_to_boundary s; speed_diff := speed_diff s;
     localization_num := localization_num s; init_timestamp := init_timestamp s;
     dist_list := dist_list s; fetch_log := fetch_log s |}.

Definition set_min_speed (v : Q) (s : state) : state :=
  {| traveled_lanes := traveled_lanes s; current_lane := current_lane s;
     priority_lanes := priority_lanes s;
     off_road_candidate_lane := off_road_candidate_lane s;
     intersect_start_time := intersect_start_time s;
     next_lanes := next_lanes s; min_speed := v;
     dist_to_boundary := dist_to_boundary s; speed_diff := speed_diff s;
     localization_num := localization_num s; init_timestamp := init_timestamp s;
     dist_list := dist_list s; fetch_log := fetch_log s |}.

Definition set_dist_to_boundary (v : Q) (s : state) : state :=
  {| traveled_lanes := traveled_lanes s; current_lane := current_lane s;
     priority_lanes := priority_lanes s;
     off_road_candidate_lane := off_road_candidate_lane s;
     intersect_start_time := intersect_start_time s;
     next_lanes := next_lanes s; min_speed := min_speed s;
     dist_to_boundary := v; speed_diff := speed_diff s;
     localization_num := localization_num s; init_timestamp := init_timestamp s;
     dist_list := dist_list s; fetch_log := fetch_log s |}.

Definition set_speed_diff (v : Q) (s : state) : state :=
  {| traveled_lanes := traveled_lanes s; current_lane := current_lane s;
     priority_lanes := priority_lanes s;
     off_road_candidate_lane := off_road_candidate_lane s;
     intersect_start_time := intersect_start_time s;
     next_lanes := next_lanes s; min_speed := min_speed s;
     dist_to_boundary := dist_to_boundary s; speed_diff := v;
     localization_num := localization_num s; init_timestamp := init_timestamp s;
     dist_list := dist_list s; fetch_log := fetch_log s |}.

Definition set_localization_num (v : Z) (s : state) : state :=
  {| traveled_lanes := traveled_lanes s; current_lane := current_lane s;
     priority_lanes := priority_lanes s;
     off_road_candidate_lane := off_road_candidate_lane s;
     intersect_start_time := intersect_start_time s;
     next_lanes := next_lanes s; min_speed := min_speed s;
     dist_to_boundary := dist_to_boundary s; speed_diff := speed_diff s;
     localization_num := v; init_timestamp := init_timestamp s;
     dist_list := dist_list s; fetch_log := fetch_log s |}.

Definition set_init_timestamp (v : option Q) (s : state) : state :=
  {| traveled_lanes := traveled_lanes s; current_lane := current_lane s;
     priority_lanes := priority_lanes s;
     off_road_candidate_lane := off_road_candidate_lane s;
     intersect_start_time := intersect_start_time s;
     next_lanes := next_lanes s; min_speed := min_speed s;
     dist_to_boundary := dist_to_boundary s; speed_diff := speed_diff s;
     localization_num := localization_num s; init_timestamp := v;
     dist_list := dist_list s; fetch_log := fetch_log s |}.

(** [dist_list.append(v)] *)
Definition append_dist (v : Q) (s : state) : state :=
  {| traveled_lanes := traveled_lanes s; current_lane := current_lane s;
     priority_lanes := priority_lanes s;
     off_road_candidate_lane := off_road_candidate_lane s;
     intersect_start_time := intersect_start_time s;
     next_lanes := next_lanes s; min_speed := min_speed s;
     dist_to_boundary := dist_to_boundary s; speed_diff := speed_diff s;
     localization_num := localization_num s; init_timestamp := init_timestamp s;
     dist_list := dist_list s ++ [v]; fetch_log := fetch_log s |}.

Definition log_fetch (c : FetchCall) (s : state) : state :=
  {| traveled_lanes := traveled_lanes s; current_lane := current_lane s;
     priority_lanes := priority_lanes s;
     off_road_candidate_lane := off_road_candidate_lane s;
     intersect_start_time := intersect_start_time s;
     next_lanes := next_lanes s; min_speed := min_speed s;
     dist_to_boundary := dist_to_boundary s; speed_diff := speed_diff s;
     localization_num := localization_num s; init_timestamp := init_timestamp s;
     dist_list := dist_list s; fetch_log := fetch_log s ++ [c] |}.

Definition planning_channel : string := "/apollo/planning".
Definition localization_channel : string := "/apollo/localization/pose".

Section Pass.
Context `{C : Collaborators}.

(** [calculate_speed], on velocities whose squares stay in float range:
    [x**2] is then the product [x * x].  Beyond that range the source raises
    [OverflowError] at line 34, which leaves the loop at line 111, before the
    resolver call; the embedding has no such case. *)
Definition calculate_speed (linear_velocity : Vec.t) : Q :=
  let x := Vec.x linear_velocity in
  let y := Vec.y linear_velocity in
  math_sqrt (x * x + y * y)%Q.

(** Lines 160-174: the speed margin.  The [v_print] block in between only
    prints and is left out. *)
Definition speeding_detection (limit current_speed : Q) (candidates : nat)
    (s : state) : state :=
  if negb (Qeq_bool limit 0) || bool_decide (1 < candidates)%nat then
    let diff := (limit - current_speed)%Q in
    let s := set_speed_diff diff s in
    if Qlt_bool diff (min_speed s) then set_min_speed diff s else s
  else s.

(** Lines 182-204: the off-road detector.  [dist] is the distance of the
    vehicle polygon to the lane line string (already stored in
    [dist_to_boundary]); [centre_dist] is
    [Point(current_x, current_y).distance(lane_linestring)]. *)
Definition off_road_detection (current_time : Q) (lane : string)
    (dist centre_dist : Q) (s : state) : state :=
  if bool_decide (off_road_candidate_lane s = None) && Qeq_bool dist 0 then
    set_off_road (Some lane) (Some current_time) s
  else
    match intersect_start_time s with
    | Some start =>
        let time_gap := (current_time - start)%Q in
        if Qle_bool OFF_LANE_THRESHOLD time_gap then
          if Qeq_bool dist 0 then append_dist centre_dist s
          else set_off_road None None s
        else if Qlt_bool time_gap OFF_LANE_THRESHOLD && negb (Qeq_bool dist 0) then
          set_off_road None None s
        else s
    | None => append_dist centre_dist s
    end.

(** Lines 150-204: what a localization step does once the warm-up is over.
    [lanes[current_lane]] is read at lines 158 and 178 with the same key:
    one lookup stands for both. *)
Definition after_warm_up (lanes : gmap string Lane) (current_time : Q)
    (p : Pose) (current_speed : Q) (candidates : nat) (s : state) : outcome :=
  match current_lane s with
  | None => Normal s
  | Some l =>
      let s := set_traveled_lanes (traveled_lanes s ∪ {[l]}) s in
      match lanes !! l with
      | None => Raised KeyError s
      | Some lane =>
          let limit := (speed_limit lane * 3.6)%Q in
          let s := speeding_detection limit current_speed candidates s in
          let lane_linestring := construct_lane_linestring lane in
          let ego_car_polygon := construct_adc_polygon p in
          let dist := polygon_distance ego_car_polygon lane_linestring in
          let s := set_dist_to_boundary dist s in
          let centre_dist :=
            point_distance (Vec.x (position p)) (Vec.y (position p))
              lane_linestring in
          Normal (off_road_detection current_time l dist centre_dist s)
      end
  end.

(** Lines 102-204: the body of [if channel_name == '/apollo/localization/pose'].
    [log_fetch] records the arguments of the resolver call in the trace and
    changes no variable of the program; the two [time.time()] readings only
    feed [v_print]. *)
Definition on_localization (lanes : gmap string Lane) (current_time : Q)
    (msg : Payload) (s : state) : outcome :=
  let s := set_localization_num (localization_num s + 1) s in
  match pose msg with
  | None => Raised AttributeError s
  | Some p =>
      let current_x := Vec.x (position p) in
      let current_y := Vec.y (position p) in
      let current_speed := (calculate_speed (linear_velocity p) * 3.6)%Q in
      let current_lanes :=
        efficient_fetch_lane current_x current_y (current_lane s) lanes
          (priority_lanes s) in
      let s :=
        log_fetch {| call_x := current_x; call_y := current_y;
                     call_current_lane := current_lane s;
                     call_priority_lanes := priority_lanes s |} s in
      match select_lane current_lanes (next_lanes s) (traveled_lanes s) with
      | Err e => Raised e s
      | Ok chosen =>
          let s := set_current_lane chosen s in
          match init_timestamp s with
          | None => Normal (set_init_timestamp (Some current_time) s)
          | Some t0 =>
              if Qle_bool (current_time - t0) 5 then Normal s
              else after_warm_up lanes current_time p current_speed
                     (length current_lanes) s
          end
      end
  end.

(** Lines 98-100: the body of [if channel_name == '/apollo/planning']. *)
Definition on_planning (msg : Payload) (s : state) : outcome :=
  match routing msg with
  | None => Raised AttributeError s
  | Some routing_response_msg =>
      Normal (set_next_lanes
                (get_next_lanes routing_response_msg (current_lane s)) s)
  end.

(** One iteration of the [for] loop over [messages]. *)
Definition step (lanes : gmap string Lane) (s : state) (m : Message) : outcome :=
  match header (parsed_msg m) with
  | None => Raised AttributeError s
  | Some h =>
      let current_time := timestamp_sec h in
      let after_planning :=
        if decide (channel_name m = planning_channel)
        then on_planning (parsed_msg m) s else Normal s in
      match after_planning with
      | Raised e s => Raised e s
      | Normal s =>
          if decide (channel_name m = localization_channel)
          then on_localization lanes current_time (parsed_msg m) s
          else Normal s
      end
  end.

(** The [for] loop: an exception leaves it at once. *)
Fixpoint run (lanes : gmap string Lane) (s : state) (messages : list Message)
    : outcome :=
  match messages with
  | [] => Normal s
  | m :: rest =>
      match step lanes s m with
      | Normal s' => run lanes s' rest
      | Raised e s' => Raised e s'
      end
  end.

(** [walk_msg_section]: the exception that left the call, if any, and the
    three objects the caller passed in ([lanes_set], [speed_list],
    [dist_list]) as the call leaves them.  The two updates after the loop
    are not reached when the loop raised; the appends to [dist_list] made
    before are kept. *)
Definition walk_msg_section (messages : list Message) (lanes : gmap string Lane)
    (lanes_set : gset string) (speed_list dist_list0 : list Q)
    : option exception * (gset string * list Q * list Q) :=
  match run lanes (initial_state dist_list0) messages with
  | Normal s =>
      (None, (lanes_set ∪ traveled_lanes s, speed_list ++ [min_speed s], dist_list s))
  | Raised e s => (Some e, (lanes_set, speed_list, dist_list s))
  end.

End Pass.

(** ** [walk_messages] *)

(** The two loops at lines 230-235: the least value of a list, starting
    from [start]. *)
Definition least (start : Q) (values : list Q) : Q :=
  fold_left (λ least v, if Qlt_bool v least then v else least) values start.

(** The three entries [walk_messages] stores into [return_dict].  The set
    [return_lanes] of pairs is the list of its pairs in the order the loop at
    line 248 meets the traveled lanes (a set is iterated in no particular
    order; the lanes are distinct, so the pairs are). *)
Record Summary := {
  summary_traveled_lanes : list (string * Q);
  summary_min_speed : Q;
  summary_boundary_dist : Q
}.

(** How a call of [walk_messages] ends: it returns, with [return_dict]
    filled when one was passed, or an exception leaves it. *)
Inductive returned :=
  | Returns (d : option Summary)
  | Raises (e : exception).

Section Report.
Context `{C : Collaborators}.

(** The builtin [round(number, ndigits)] on floats. *)
Variable round : Q → Z → Q.

(** The loops over [traveled_lanes] at lines 241-243 and 248-251:
    [lanes[lane]] is read for every traveled lane, and each lane is paired
    with its limit in km/h, rounded. *)
Fixpoint lane_limits (ndigits : Z) (lanes : gmap string Lane)
    (traveled : list string) : result (list (string * Q)) :=
  match traveled with
  | [] => Ok []
  | lane :: rest =>
      match lanes !! lane with
      | None => Err KeyError
      | Some l =>
          match lane_limits ndigits lanes rest with
          | Ok pairs => Ok ((lane, round (speed_limit l * 3.6)%Q ndigits) :: pairs)
          | Err e => Err e
          end
      end
  end.

(** [walk_messages], from the point where [read_by_path], [load_mapbin] and
    [cache_lanes] have returned [messages] and [lanes].  [has_return_dict]
    is [return_dict is not None]; without a dict the function prints what it
    found and returns nothing. *)
Definition walk_messages (messages : list Message) (lanes : gmap string Lane)
    (has_return_dict : bool) : returned :=
  match walk_msg_section messages lanes ∅ [] [] with
  | (Some e, _) => Raises e
  | (None, (traveled_lanes, speed_list, dist_list)) =>
      let min_speed := least (inject_Z sys_maxsize) speed_list in
      let min_dist := least (inject_Z sys_maxsize) dist_list in
      if has_return_dict then
        match lane_limits 3 lanes (elements traveled_lanes) with
        | Err e => Raises e
        | Ok return_lanes =>
            Returns (Some {| summary_traveled_lanes := return_lanes;
                             summary_min_speed := min_speed;
                             summary_boundary_dist := min_dist |})
        end
      else
        match lane_limits 1 lanes (elements traveled_lanes) with
        | Err e => Raises e
        | Ok _ => Returns None
        end
  end.

End Report.

(** ** A concrete instance of the collaborators

    A one-dimensional map, used to run the pass on explicit sessions.  A lane
    is the strip [lo <= x <= hi]; its line string is the pair of boundary
    lines [x = lo] and [x = hi].  The vehicle polygon is the axis-aligned
    square of half-side 1 around the position.  Distances are the Euclidean
    ones for these shapes, and [math_sqrt] is exact on squares of
    rationals. *)
Module Strip.

Record lane := { limit : Q; lo : Q; hi : Q }.

Definition Qabs' (a : Q) : Q := if Qle_bool 0 a then a else (- a)%Q.
Definition Qmin' (a b : Q) : Q := if Qle_bool a b then a else b.
Definition Qmax' (a b : Q) : Q := if Qle_bool a b then b else a.

(** Distance of the interval [[a, b]] to the line [x = c]. *)
Definition gap (a b c : Q) : Q := Qmax' 0 (Qmax' (a - c) (c - b)).

Definition contains (x : Q) (l : lane) : bool :=
  Qle_bool (lo l) x && Qle_bool x (hi l).

(** The lane ids of the map, in the order the resolver tries them. *)
Definition ids : list string := ["a"; "b"].

Definition inside (x : Q) (lanes : gmap string lane) (k : string) : bool :=
  match lanes !! k with
  | Some l => contains x l
  | None => false
  end.

Definition sqrt (q : Q) : Q :=
  Z.sqrt (Qnum q * Zpos (Qden q)) # Qden q.

#[export] Instance collaborators : Collaborators := {|
  Lane := lane;
  LineString := Q * Q;
  Polygon := Q * Q;
  speed_limit := limit;
  math_sqrt := sqrt;
  efficient_fetch_lane := λ x _ _ lanes _, List.filter (inside x lanes) ids;
  construct_lane_linestring := λ l, (lo l, hi l);
  construct_adc_polygon := λ p,
    (Vec.x (position p) - 1, Vec.x (position p) + 1)%Q;
  polygon_distance := λ poly ls,
    Qmin' (gap poly.1 poly.2 ls.1) (gap poly.1 poly.2 ls.2);
  point_distance := λ x _ ls, Qmin' (Qabs' (x - ls.1)) (Qabs' (x - ls.2))
|}.

(** A localization message at time [t], position [(x, 0)], velocity
    [(vx, vy)]. *)
Definition loc (t x vx vy : Q) : Message :=
  {| channel_name := localization_channel;
     parsed_msg :=
       {| header := Some {| timestamp_sec := t |};
          routing := None;
          pose := Some {| position := {| Vec.x := x; Vec.y := 0 |};
                          linear_velocity := {| Vec.x := vx; Vec.y := vy |} |} |} |}.

(** The plan of one road with one passage over the lanes [ids], and a
    planning message at time [t] that carries it. *)
Definition route (ids : list string) : RoutingResponse :=
  {| road := [ {| passage := [ {| segment := Build_Segment <$> ids |} ] |} ] |}.

Definition plan (t : Q) (ids : list string) : Message :=
  {| channel_name := planning_channel;
     parsed_msg :=
       {| header := Some {| timestamp_sec := t |};
          routing := Some (route ids);
          pose := None |} |}.

(** Lane ["a"] is the strip [0 <= x <= 4] with limit 10 m/s (36 km/h);
    lane ["b"] is [3 <= x <= 8] with no limit. *)
Definition lanes : gmap string (@Lane collaborators) :=
  <["a" := {| limit := 10; lo := 0; hi := 4 |}]>
    (<["b" := {| limit := 0; lo := 3; hi := 8 |}]> ∅).

End Strip.

(** ** Notions used in the statements *)

(** The innermost loop body on a bare lane id. *)
Definition visit_id (current_lane_id : option string)
    (acc : list string * bool) (lane_id : string) : list string * bool :=
  visit_segment current_lane_id acc {| segment_id := lane_id |}.

(** The candidates that occur in [next_lanes], in candidate order. *)
Definition routing_candidates (current_lanes next_lanes : list string) : list string :=
  filter (λ c, c ∈ next_lanes) current_lanes.

(** What a localization step works on once it is past the warm-up check
    and the off-lane check: the time stamp, the pose, the candidates, the
    lane resolved and its entry in [lanes] (of the map's lane type [L]). *)
Record Observation_of (L : Type) := {
  obs_time : Q;
  obs_pose : Pose;
  obs_candidates : list string;
  obs_lane : string;
  obs_map_lane : L
}.
Arguments obs_time {L} _.
Arguments obs_pose {L} _.
Arguments obs_candidates {L} _.
Arguments obs_lane {L} _.
Arguments obs_map_lane {L} _.

Section Notions.
Context `{C : Collaborators}.

Definition Observation : Type := Observation_of Lane.
Implicit Types (lanes : gmap string Lane) (s : state) (m : Message).

(** The candidates the resolver returns for the pose [p] in state [s]. *)
Definition candidates lanes (p : Pose) s : list string :=
  efficient_fetch_lane (Vec.x (position p)) (Vec.y (position p))
    (current_lane s) lanes (priority_lanes s).


(** The speed limit of the resolved lane and the current speed, in km/h. *)
Definition obs_limit (o : Observation) : Q := (speed_limit (obs_map_lane o) * 3.6)%Q.
Definition obs_speed (o : Observation) : Q :=
  (calculate_speed (linear_velocity (obs_pose o)) * 3.6)%Q.

(** [dist_to_boundary]: vehicle polygon to lane line string. *)
Definition obs_dist (o : Observation) : Q :=
  polygon_distance (construct_adc_polygon (obs_pose o))
    (construct_lane_linestring (obs_map_lane o)).

(** [adc_center_point.distance(lane_linestring)]. *)
Definition obs_centre_dist (o : Observation) : Q :=
  point_distance (Vec.x (position (obs_pose o))) (Vec.y (position (obs_pose o)))
    (construct_lane_linestring (obs_map_lane o)).

(** [observe lanes s m] is [Some o] exactly when [m], processed in state
    [s], is a localization message with a header and a pose, later than 5
    time units after the first localization message, for which a lane is
    resolved that [lanes] knows. *)
Definition observe lanes s m : option Observation :=
  if decide (channel_name m = localization_channel) then
    match header (parsed_msg m), pose (parsed_msg m), init_timestamp s with
    | Some h, Some p, Some t0 =>
        if Qle_bool (timestamp_sec h - t0) 5 then None
        else
          match select_lane (candidates lanes p s) (next_lanes s) (traveled_lanes s) with
          | Ok (Some l) =>
              match lanes !! l with
              | Some lane =>
                  Some {| obs_time := timestamp_sec h; obs_pose := p;
                          obs_candidates := candidates lanes p s;
                          obs_lane := l; obs_map_lane := lane |}
              | None => None
              end
          | _ => None
          end
    | _, _, _ => None
    end
  else None.

(** The state in which the margin and the off-road detector run at an
    observed step: the counter, the resolver call, the lane and the
    traveled set are updated. *)
Definition arrive lanes (o : Observation) s : state :=
  set_traveled_lanes (traveled_lanes s ∪ {[obs_lane o]})
    (set_current_lane (Some (obs_lane o))
       (log_fetch {| call_x := Vec.x (position (obs_pose o));
                     call_y := Vec.y (position (obs_pose o));
                     call_current_lane := current_lane s;
                     call_priority_lanes := priority_lanes s |}
          (set_localization_num (localization_num s + 1) s))).

(** Every message of [msgs], processed in turn from [s], is an observed
    step at which the vehicle polygon touches the lane boundary. *)
Fixpoint touching lanes s (msgs : list Message) : Prop :=
  match msgs with
  | [] => True
  | m :: rest =>
      (∃ o, observe lanes s m = Some o ∧ (obs_dist o == 0)%Q) ∧
      touching lanes (state_of (step lanes s m)) rest
  end.

(** No message of [msgs], processed in turn from [s], is an observed step
    at which the vehicle polygon is clear of the lane boundary. *)
Fixpoint no_release lanes s (msgs : list Message) : Prop :=
  match msgs with
  | [] => True
  | m :: rest =>
      (∀ o, observe lanes s m = Some o → (obs_dist o == 0)%Q) ∧
      no_release lanes (state_of (step lanes s m)) rest
  end.

End Notions.

(** The time stamp of the first localization message of a stream. *)
Fixpoint first_localization_time (msgs : list Message) : option Q :=
  match msgs with
  | [] => None
  | m :: rest =>
      if decide (channel_name m = localization_channel)
      then timestamp_sec <$> header (parsed_msg m)
      else first_localization_time rest
  end.

(** A payload lacks a field that the pass reads from a message of its
    channel: the header (read from every message), the routing of a planning
    message, the pose of a localization message. *)
Definition malformed (m : Message) : Prop :=
  header (parsed_msg m) = None ∨
  (channel_name m = planning_channel ∧ routing (parsed_msg m) = None) ∨
  (channel_name m = localization_channel ∧ pose (parsed_msg m) = None).

(** [t] is within the warm-up window of the pass in state [s]: no
    localization message was processed yet (the message at hand is the first
    one), or [t] is at most 5 time units after the first one. *)
Definition in_warm_up (s : state) (t : Q) : Prop :=
  match init_timestamp s with
  | None => True
  | Some t0 => (t - t0 <= 5)%Q
  end.

(** The state a localization step reaches before the warm-up check: the
    counter, the resolver call and the lane are updated. *)
Definition resolve_to (chosen : option string) (p : Pose) (s : state) : state :=
  set_current_lane chosen
    (log_fetch {| call_x := Vec.x (position p); call_y := Vec.y (position p);
                  call_current_lane := current_lane s;
                  call_priority_lanes := priority_lanes s |}
       (set_localization_num (localization_num s + 1) s)).

(** The state in which the off-road detector runs at an observed step. *)
Definition before_off_road `{C : Collaborators} (lanes : gmap string Lane)
    (o : Observation) (s : state) : state :=
  set_dist_to_boundary (obs_dist o)
    (speeding_detection (obs_limit o) (obs_speed o) (length (obs_candidates o))
       (arrive lanes o s)).

(** Sessions on the strip map.  [approach] is a first localization message
    in the middle of lane ["a"]; [graze t] is a localization message at
    [x = 0.5], where the vehicle square [[-0.5, 1.5]] lies across the
    boundary line [x = 0] of lane ["a"] and its centre is 0.5 away from
    it. *)
Module StripSessions.
Import Strip.

Definition approach : Message := loc 0 2 0 0.
Definition graze (t : Q) : Message := loc t 0.5 0 0.

(** The state after the first localization message. *)
Definition started : state :=
  state_of (run lanes (initial_state []) [approach]).

(** The vehicle touches the boundary from time 6 to time 10. *)
Definition grazing : list Message :=
  [graze 6; graze 7; graze 8; graze 9; graze 10].

(** The state after five time units of touching. *)
Definition grazed : state := state_of (run lanes started grazing).

(** What the pass observes at [graze t] after the warm-up. *)
Definition graze_observation (t : Q) : @Observation collaborators :=
  {| obs_time := t;
     obs_pose := {| position := {| Vec.x := 0.5; Vec.y := 0 |};
                    linear_velocity := {| Vec.x := 0; Vec.y := 0 |} |};
     obs_candidates := ["a"]; obs_lane := "a";
     obs_map_lane := {| limit := 10; lo := 0; hi := 4 |} |}.

(** The vehicle moves into lane ["b"] one time unit after the start. *)
Definition crossing : Message := loc 1 5 0 0.

(** After the warm-up the vehicle is in the middle of lane ["a"] at
    5 m/s. *)
Definition cruise : Message := loc 6 2 3 4.
Definition cruise_observation : @Observation collaborators :=
  {| obs_time := 6;
     obs_pose := {| position := {| Vec.x := 2; Vec.y := 0 |};
                    linear_velocity := {| Vec.x := 3; Vec.y := 4 |} |};
     obs_candidates := ["a"]; obs_lane := "a";
     obs_map_lane := {| limit := 10; lo := 0; hi := 4 |} |}.

(** The centre of the vehicle is on the boundary line [x = 0] of lane
    ["a"], from time 6 to time 10. *)
Definition on_line (t : Q) : Message := loc t 0 0 0.
Definition riding : list Message :=
  [on_line 6; on_line 7; on_line 8; on_line 9; on_line 10].

(** The state after five time units on the line. *)
Definition ridden : state := state_of (run lanes started riding).

(** Back in the middle of lane ["a"], clear of both boundaries. *)
Definition clear_at (t : Q) : Message := loc t 2 0 0.

(** The state after a first localization message in lane ["b"]. *)
Definition started_in_b : state :=
  state_of (run lanes (initial_state []) [loc 0 5 0 0]).

(** A localization message whose payload has no pose. *)
Definition no_pose (t : Q) : Message :=
  {| channel_name := localization_channel;
     parsed_msg := {| header := Some {| timestamp_sec := t |};
                      routing := None; pose := None |} |}.
End StripSessions.

(** A map index that is out of step with the lane dict: the strip
    collaborators with a resolver that answers with the id ["ghost"], which
    [Strip.lanes] does not have. *)
Module Stale.

#[export] Instance collaborators : Collaborators := {|
  Lane := Strip.lane;
  LineString := Q * Q;
  Polygon := Q * Q;
  speed_limit := Strip.limit;
  math_sqrt := Strip.sqrt;
  efficient_fetch_lane := λ _ _ _ _ _, ["ghost"];
  construct_lane_linestring := λ l, (Strip.lo l, Strip.hi l);
  construct_adc_polygon := λ p,
    (Vec.x (position p) - 1, Vec.x (position p) + 1)%Q;
  polygon_distance := λ poly ls,
    Strip.Qmin' (Strip.gap poly.1 poly.2 ls.1) (Strip.gap poly.1 poly.2 ls.2);
  point_distance := λ x _ ls,
    Strip.Qmin' (Strip.Qabs' (x - ls.1)) (Strip.Qabs' (x - ls.2))
|}.

Definition lanes : gmap string (@Lane collaborators) :=
  <["a" := {| Strip.limit := 10; Strip.lo := 0; Strip.hi := 4 |}]> ∅.

(** The state after a first localization message. *)
Definition started : state :=
  state_of (run lanes (initial_state []) [Strip.loc 0 2 0 0]).

End Stale.

(** A plan of two roads: lanes [a] and [b] in one passage of the first
    road, lane [c] on the second road. *)
Definition two_roads : RoutingResponse :=
  {| road := [ {| passage := [ {| segment := [ {| segment_id := "a" |};
                                               {| segment_id := "b" |} ] |} ] |};
               {| passage := [ {| segment := [ {| segment_id := "c" |} ] |} ] |} ] |}.

(** A message of a channel the pass does not read, at time [t]. *)
Definition chassis (t : Q) : Message :=
  {| channel_name := "/apollo/canbus/chassis";
     parsed_msg := {| header := Some {| timestamp_sec := t |};
                      routing := None; pose := None |} |}.

(** The vehicle lies across the boundary of lane ["a"] from time 7 to time
    10, while a planning message and a chassis message come in. *)
Definition grazing_among_others : list Message :=
  [StripSessions.graze 7; Strip.plan 7.5 ["a"]; chassis 8;
   StripSessions.graze 8; StripSessions.graze 9; StripSessions.graze 10].

(** A localization message at time [t] with the vehicle outside every lane
    of the strip map. *)
Definition astray (t : Q) : Message := Strip.loc t 20 0 0.

(** Rounding to [ndigits] decimal digits, half up, for the sessions. *)
Definition round_half_up (q : Q) (ndigits : Z) : Q :=
  let scale := 10 ^ ndigits in
  ((2 * Qnum q * scale + Zpos (Qden q)) / (2 * Zpos (Qden q))) # Z.to_pos scale.

(** The priority hint passed in a resolver call is [None]. *)
Definition hint_is_None (c : FetchCall) : Prop := call_priority_lanes c = None.

(** In state [s] the message [m] is a localization message later than 5
    time units after the first one, and [l] is the current lane when its
    step is over. *)
Definition resolved_after_warm_up `{C : Collaborators} (lanes : gmap string Lane)
    (s : state) (m : Message) (l : string) : Prop :=
  channel_name m = localization_channel ∧
  ∃ h t0, header (parsed_msg m) = Some h ∧ init_timestamp s = Some t0 ∧
    ¬ (timestamp_sec h - t0 <= 5)%Q ∧
    current_lane (state_of (step lanes s m)) = Some l.

(** The messages [processed] so far, from state [s0], contain an observed
    step at time [T] at which the vehicle polygon touched the lane boundary,
    and no observed step since then was clear of the boundary: a touch
    sustained since [T]. *)
Definition touch_since `{C : Collaborators} (lanes : gmap string Lane)
    (s0 : state) (processed : list Message) (T : Q) : Prop :=
  ∃ pre mj mid sj oj,
    processed = pre ++ mj :: mid ∧
    run lanes s0 pre = Normal sj ∧
    observe lanes sj mj = Some oj ∧ (obs_dist oj == 0)%Q ∧ obs_time oj = T ∧
    no_release lanes (state_of (step lanes sj mj)) mid.

(** * Properties *)

(** ** The routing scan *)

Lemma visit_passage_ids cur p acc :
  visit_passage cur acc p = fold_left (visit_id cur) (segment_id <$> segment p) acc.
Proof.
  unfold visit_passage. generalize (segment p) as segs. intros segs.
  revert acc. induction segs as [|[i] segs IH]; intros acc; [done|].
  simpl. apply IH.
Qed.

Lemma visit_road_ids cur r acc :
  visit_road cur acc r =
  fold_left (visit_id cur) (q ← passage r; segment_id <$> segment q) acc.
Proof.
  unfold visit_road. generalize (passage r) as ps. intros ps.
  revert acc. induction ps as [|p ps IH]; intros acc; [done|].
  simpl. rewrite fold_left_app, <- visit_passage_ids. apply IH.
Qed.

(** The three nested loops are one loop over [plan_ids]. *)
Lemma get_next_lanes_flat r cur :
  get_next_lanes r cur = (fold_left (visit_id cur) (plan_ids r) ([], false)).1.
Proof.
  unfold get_next_lanes, plan_ids. f_equal.
  generalize (([], false) : list string * bool) as acc.
  generalize (road r) as rs. intros rs.
  induction rs as [|x rs IH]; intros acc; [done|].
  simpl. rewrite fold_left_app, <- visit_road_ids. apply IH.
Qed.

Lemma visit_ids_no_lane ids acc :
  fold_left (visit_id None) ids acc = (acc.1 ++ ids, acc.2).
Proof.
  revert acc. induction ids as [|i ids IH]; intros [nl hit]; simpl.
  - by rewrite app_nil_r.
  - rewrite IH. unfold visit_id, visit_segment. simpl.
    rewrite orb_true_r, <- app_assoc. done.
Qed.

Lemma visit_ids_miss c ids nl :
  c ∉ ids → fold_left (visit_id (Some c)) ids (nl, false) = (nl, false).
Proof.
  induction ids as [|i ids IH]; intros Hc; [done|].
  apply not_elem_of_cons in Hc as [Hne Hc].
  simpl. unfold visit_id at 2, visit_segment. simpl.
  destruct (decide (Some i = Some c)) as [[= ->]|_]; [done|].
  simpl. by apply IH.
Qed.

Lemma visit_ids_hit c ids nl :
  fold_left (visit_id (Some c)) ids (nl, true) = (nl ++ ids, true).
Proof.
  revert nl. induction ids as [|i ids IH]; intros nl; simpl.
  - by rewrite app_nil_r.
  - unfold visit_id at 2, visit_segment. simpl.
    destruct (decide (Some i = Some c)); simpl; rewrite IH, <- app_assoc; done.
Qed.

(** With no current lane the scan returns the whole plan. *)
Lemma get_next_lanes_None r : get_next_lanes r None = plan_ids r.
Proof. by rewrite get_next_lanes_flat, visit_ids_no_lane. Qed.

(** With a current lane the plan splits at its first occurrence. *)
Lemma get_next_lanes_split r c before after :
  plan_ids r = before ++ c :: after → c ∉ before →
  get_next_lanes r (Some c) = c :: after.
Proof.
  intros Hp Hb. rewrite get_next_lanes_flat, Hp, fold_left_app.
  rewrite visit_ids_miss by done. simpl.
  unfold visit_id at 2, visit_segment. simpl.
  rewrite decide_True by done. simpl. by rewrite visit_ids_hit.
Qed.

Lemma get_next_lanes_miss r c : c ∉ plan_ids r → get_next_lanes r (Some c) = [].
Proof. intros H. by rewrite get_next_lanes_flat, visit_ids_miss. Qed.

(** ** [list.index] *)

Lemma index_Some l v i : index l v = Some i → l !! i = Some v.
Proof.
  revert i. induction l as [|a l IH]; intros i; simpl; [done|].
  case_decide as Hav.
  - intros [= <-]. by subst.
  - destruct (index l v) as [j|] eqn:E; simpl; [|done].
    intros [= <-]. simpl. by apply IH.
Qed.

Lemma index_None l v : index l v = None ↔ v ∉ l.
Proof.
  induction l as [|a l IH]; simpl.
  - split; [intros _; apply not_elem_of_nil | done].
  - case_decide as Hav.
    + subst. split; [done|]. intros H. exfalso. apply H. left.
    + rewrite not_elem_of_cons. destruct (index l v); simpl.
      * split; [done|]. intros [_ H]. by apply IH in H.
      * split; [|done]. intros _. split; [congruence|]. by apply IH.
Qed.

Lemma index_is_Some l v : v ∈ l → ∃ i, index l v = Some i ∧ l !! i = Some v.
Proof.
  intros Hv. destruct (index l v) as [i|] eqn:E.
  - exists i. split; [done|]. by apply index_Some.
  - by apply index_None in E.
Qed.

(** ** The disambiguator *)

(** After the scan [loc] is the index of the last candidate found in
    [next_lanes]: every later hit overwrites an earlier one. *)
Lemma scan_loc nl tl cands acc :
  (fold_left (scan_suspect nl tl) cands acc).2 =
  match last (routing_candidates cands nl) with
  | Some c => index nl c
  | None => acc.2
  end.
Proof.
  revert acc. induction cands as [|c cands IH]; intros acc; [done|].
  simpl. rewrite IH. unfold routing_candidates. rewrite filter_cons.
  fold (routing_candidates cands nl).
  destruct (decide (c ∈ nl)) as [Hin|Hout].
  - rewrite last_cons.
    destruct (last (routing_candidates cands nl)) as [e|]; [done|].
    destruct (index_is_Some _ _ Hin) as (i & Hi & _).
    unfold scan_suspect. by rewrite Hi.
  - destruct (last (routing_candidates cands nl)) as [e|]; [done|].
    apply index_None in Hout. unfold scan_suspect. rewrite Hout.
    by case_decide.
Qed.

(** C2 (amended).  With more than one candidate, the routing match is the
    LAST candidate, in candidate iteration order, that is a member of
    [next_lanes] (each hit of [next_lanes.index] overwrites [loc]); whenever
    some candidate is in [next_lanes], the resolved current lane is that
    routing match. *)
Theorem select_lane_routing_match
    (current_lanes next_lanes : list string) (traveled_lanes : gset string) :
  (1 < length current_lanes)%nat →
  (∃ c, c ∈ current_lanes ∧ c ∈ next_lanes) →
  ∃ c loc,
    last (routing_candidates current_lanes next_lanes) = Some c ∧
    (fold_left (scan_suspect next_lanes traveled_lanes) current_lanes
       (None, None)).2 = Some loc ∧
    index next_lanes c = Some loc ∧
    select_lane current_lanes next_lanes traveled_lanes = Ok (Some c).
Proof.
  intros Hlen (c0 & Hc0 & Hn0).
  assert (Hne : routing_candidates current_lanes next_lanes ≠ []).
  { intros E. assert (H : c0 ∈ routing_candidates current_lanes next_lanes)
      by (by apply list_elem_of_filter).
    rewrite E in H. by apply not_elem_of_nil in H. }
  destruct (last (routing_candidates current_lanes next_lanes)) as [c|] eqn:El;
    [|by apply last_None in El].
  assert (Hc : c ∈ next_lanes).
  { apply last_Some_elem_of in El. by apply list_elem_of_filter in El as [? _]. }
  destruct (index_is_Some _ _ Hc) as (loc & Hloc & Hget).
  assert (Hscan : (fold_left (scan_suspect next_lanes traveled_lanes)
                     current_lanes (None, None)).2 = Some loc)
    by (by rewrite scan_loc, El).
  exists c, loc. repeat split; try done.
  destruct current_lanes as [|a [|b rest]]; simpl in Hlen; [lia..|].
  cbv beta iota zeta delta [select_lane].
  by rewrite Hscan, Hget.
Qed.

(** The statement of C2 on three candidates, two of them on the route. *)
Lemma select_lane_routing_match_witness :
  ∃ c loc,
    last (routing_candidates ["a"; "b"; "d"] ["x"; "a"; "b"]) = Some c ∧
    (fold_left (scan_suspect ["x"; "a"; "b"] ∅) ["a"; "b"; "d"]
       (None, None)).2 = Some loc ∧
    index ["x"; "a"; "b"] c = Some loc ∧
    select_lane ["a"; "b"; "d"] ["x"; "a"; "b"] ∅ = Ok (Some c).
Proof.
  apply (select_lane_routing_match ["a"; "b"; "d"] ["x"; "a"; "b"] ∅).
  - simpl. lia.
  - exists "a". split; [apply list_elem_of_here | apply list_elem_of_further, list_elem_of_here].
Defined.

(** C2 as stated fails: with candidates [a; b] both on the route, the first
    candidate found in [next_lanes] is [a], and the lane resolved is [b]. *)
Lemma select_lane_not_first_match :
  head (routing_candidates ["a"; "b"] ["a"; "b"]) = Some "a" ∧
  select_lane ["a"; "b"] ["a"; "b"] ∅ = Ok (Some "b") ∧
  select_lane ["a"; "b"] ["a"; "b"] ∅
    ≠ Ok (head (routing_candidates ["a"; "b"] ["a"; "b"])).
Proof. split_and!; [reflexivity | reflexivity | discriminate]. Qed.

(** ** One iteration, by channel *)

Section StepLemmas.
Context `{C : Collaborators}.
Implicit Types (lanes : gmap string Lane) (s : state) (m : Message).

Lemma step_no_header lanes s m :
  header (parsed_msg m) = None → step lanes s m = Raised AttributeError s.
Proof. intros H. unfold step. by rewrite H. Qed.

Lemma step_planning lanes s m h :
  channel_name m = planning_channel → header (parsed_msg m) = Some h →
  step lanes s m = on_planning (parsed_msg m) s.
Proof.
  intros Hc Hh. unfold step. rewrite Hh, Hc.
  rewrite decide_True by done.
  destruct (on_planning _ _); [|done]. by rewrite decide_False by done.
Qed.

Lemma step_localization lanes s m h :
  channel_name m = localization_channel → header (parsed_msg m) = Some h →
  step lanes s m = on_localization lanes (timestamp_sec h) (parsed_msg m) s.
Proof.
  intros Hc Hh. unfold step. rewrite Hh, Hc.
  rewrite decide_False by done. simpl. by repeat case_decide.
Qed.

Lemma step_other lanes s m h :
  channel_name m ≠ planning_channel → channel_name m ≠ localization_channel →
  header (parsed_msg m) = Some h → step lanes s m = Normal s.
Proof.
  intros Hp Hl Hh. unfold step. rewrite Hh.
  rewrite decide_False by done. simpl. by repeat case_decide.
Qed.

Lemma set_next_lanes_twice v w s :
  set_next_lanes v (set_next_lanes w s) = set_next_lanes v s.
Proof. done. Qed.

End StepLemmas.

(** C3 (amended).  When a routing message is processed with a non-null
    current lane that does not occur among the plan's segments, [is_hit]
    never becomes true and the recomputed [next_lanes] is the empty list. *)
Theorem routing_update_unknown_lane `{C : Collaborators}
    (lanes : gmap string Lane) (s : state) (m : Message) (h : Header)
    (r : RoutingResponse) (c : string) :
  channel_name m = planning_channel →
  header (parsed_msg m) = Some h →
  routing (parsed_msg m) = Some r →
  current_lane s = Some c →
  c ∉ plan_ids r →
  get_next_lanes r (Some c) = [] ∧
  step lanes s m = Normal (set_next_lanes [] s).
Proof.
  intros Hc Hh Hr Hs Hmiss. split; [by apply get_next_lanes_miss|].
  rewrite (step_planning _ _ _ h) by done. unfold on_planning.
  by rewrite Hr, Hs, get_next_lanes_miss.
Qed.

(** C9.  A routing message processed twice in a row leaves the pass as one
    processing does; [next_lanes] is then the scan of the message for the
    current lane, which a routing message does not change. *)
Theorem routing_update_idempotent `{C : Collaborators}
    (lanes : gmap string Lane) (s : state) (m : Message) :
  channel_name m = planning_channel →
  run lanes s [m; m] = run lanes s [m] ∧
  ∀ h r, header (parsed_msg m) = Some h → routing (parsed_msg m) = Some r →
    run lanes s [m; m] =
      Normal (set_next_lanes (get_next_lanes r (current_lane s)) s).
Proof.
  intros Hc.
  destruct (header (parsed_msg m)) as [h|] eqn:Hh.
  - assert (Hstep : ∀ s', step lanes s' m = on_planning (parsed_msg m) s')
      by (intros; by apply (step_planning _ _ _ h)).
    simpl. rewrite !Hstep. unfold on_planning.
    destruct (routing (parsed_msg m)) as [r|] eqn:Hr.
    + rewrite Hstep. unfold on_planning. rewrite Hr. simpl.
      split; [done|]. by intros ? ? _ [= <-].
    + split; [done|]. by intros.
  - simpl. rewrite step_no_header by done. split; [done|]. by intros.
Qed.

(** ** One localization step *)

Section OneStep.
Context `{C : Collaborators}.
Implicit Types (lanes : gmap string Lane) (s : state) (m : Message).

(** What the margin update leaves alone. *)
Lemma speeding_detection_frame limit speed n s :
  let s' := speeding_detection limit speed n s in
  traveled_lanes s' = traveled_lanes s ∧ current_lane s' = current_lane s ∧
  priority_lanes s' = priority_lanes s ∧
  off_road_candidate_lane s' = off_road_candidate_lane s ∧
  intersect_start_time s' = intersect_start_time s ∧
  next_lanes s' = next_lanes s ∧ init_timestamp s' = init_timestamp s ∧
  dist_list s' = dist_list s ∧ fetch_log s' = fetch_log s.
Proof. unfold speeding_detection. by repeat case_match. Qed.

(** What the off-road detector leaves alone. *)
Lemma off_road_detection_frame t l d cd s :
  let s' := off_road_detection t l d cd s in
  traveled_lanes s' = traveled_lanes s ∧ current_lane s' = current_lane s ∧
  priority_lanes s' = priority_lanes s ∧ next_lanes s' = next_lanes s ∧
  min_speed s' = min_speed s ∧ speed_diff s' = speed_diff s ∧
  init_timestamp s' = init_timestamp s ∧ fetch_log s' = fetch_log s.
Proof. unfold off_road_detection. by repeat case_match. Qed.

(** An observed step runs the whole body and ends normally. *)
Lemma step_observed lanes s m o :
  observe lanes s m = Some o →
  step lanes s m =
    Normal (off_road_detection (obs_time o) (obs_lane o) (obs_dist o)
              (obs_centre_dist o)
              (set_dist_to_boundary (obs_dist o)
                 (speeding_detection (obs_limit o) (obs_speed o)
                    (length (obs_candidates o)) (arrive lanes o s)))).
Proof.
  unfold observe. case_decide as Hc; [|done].
  destruct (header (parsed_msg m)) as [h|] eqn:Hh; [|done].
  destruct (pose (parsed_msg m)) as [p|] eqn:Hp; [|done].
  destruct (init_timestamp s) as [t0|] eqn:Ht0; [|done].
  destruct (Qle_bool (timestamp_sec h - t0) 5) eqn:Hw; [done|].
  destruct (select_lane _ _ _) as [[l|]|] eqn:Hsel; [|done..].
  destruct (lanes !! l) as [lane|] eqn:Hl; [|done].
  intros [= <-].
  rewrite (step_localization _ _ _ h) by done.
  unfold on_localization. rewrite Hp. simpl.
  unfold candidates in Hsel. rewrite Hsel. simpl.
  rewrite Ht0, Hw. unfold after_warm_up. simpl. by rewrite Hl.
Qed.

(** A localization step inside the warm-up window stops at the warm-up
    check: the lane has been resolved and stored by then. *)
Lemma step_warm_up lanes s m h p chosen :
  channel_name m = localization_channel →
  header (parsed_msg m) = Some h → pose (parsed_msg m) = Some p →
  in_warm_up s (timestamp_sec h) →
  select_lane (candidates lanes p s) (next_lanes s) (traveled_lanes s) = Ok chosen →
  step lanes s m =
    Normal (match init_timestamp s with
            | None => set_init_timestamp (Some (timestamp_sec h)) (resolve_to chosen p s)
            | Some _ => resolve_to chosen p s
            end).
Proof.
  intros Hc Hh Hp Hw Hsel.
  rewrite (step_localization _ _ _ h) by done.
  unfold on_localization. rewrite Hp. simpl.
  unfold candidates in Hsel. rewrite Hsel. simpl.
  unfold in_warm_up in Hw. destruct (init_timestamp s) as [t0|]; [|done].
  apply Qle_bool_iff in Hw. by rewrite Hw.
Qed.

(** Whatever a localization step inside the warm-up window does, also when
    it raises, it records nothing. *)
Lemma step_warm_up_frame lanes s m h :
  channel_name m = localization_channel →
  header (parsed_msg m) = Some h →
  in_warm_up s (timestamp_sec h) →
  let s' := state_of (step lanes s m) in
  traveled_lanes s' = traveled_lanes s ∧ min_speed s' = min_speed s ∧
  dist_list s' = dist_list s ∧
  off_road_candidate_lane s' = off_road_candidate_lane s ∧
  intersect_start_time s' = intersect_start_time s ∧
  next_lanes s' = next_lanes s ∧ speed_diff s' = speed_diff s.
Proof.
  intros Hc Hh Hw.
  rewrite (step_localization _ _ _ h) by done.
  unfold on_localization.
  destruct (pose (parsed_msg m)) as [p|]; [|done]. simpl.
  destruct (select_lane _ _ _) as [chosen|e]; [|done]. simpl.
  unfold in_warm_up in Hw. destruct (init_timestamp s) as [t0|]; [|done].
  apply Qle_bool_iff in Hw. by rewrite Hw.
Qed.

End OneStep.

(** C4 (amended).  A localization step whose time stamp lies within the
    warm-up window stops at the warm-up check, which comes after the lane
    resolution: it records no traveled lane, no margin and no boundary
    sample and leaves the off-road state and [next_lanes] alone, but the
    carried current lane is set to the lane resolved for this message. *)
Theorem warm_up_step_sets_lane `{C : Collaborators}
    (lanes : gmap string Lane) (s : state) (m : Message) (h : Header)
    (p : Pose) (chosen : option string) :
  channel_name m = localization_channel →
  header (parsed_msg m) = Some h →
  pose (parsed_msg m) = Some p →
  in_warm_up s (timestamp_sec h) →
  select_lane (candidates lanes p s) (next_lanes s) (traveled_lanes s) = Ok chosen →
  ∃ s', step lanes s m = Normal s' ∧
    current_lane s' = chosen ∧
    traveled_lanes s' = traveled_lanes s ∧ min_speed s' = min_speed s ∧
    dist_list s' = dist_list s ∧
    off_road_candidate_lane s' = off_road_candidate_lane s ∧
    intersect_start_time s' = intersect_start_time s ∧
    next_lanes s' = next_lanes s.
Proof.
  intros Hc Hh Hp Hw Hsel. eexists. split; [by eapply step_warm_up|].
  by destruct (init_timestamp s).
Qed.

(** C7.  At an observed step (a localization step after the warm-up with a
    lane resolved) the running minimum margin is updated with
    [speed_limit - current_speed] when the lane's speed limit is nonzero or
    more than one candidate lane contained the position, and only then: a
    zero limit with at most one candidate leaves it unchanged. *)
Theorem margin_update_condition `{C : Collaborators}
    (lanes : gmap string Lane) (s : state) (m : Message) (o : Observation) :
  observe lanes s m = Some o →
  let s' := state_of (step lanes s m) in
  let margin := (obs_limit o - obs_speed o)%Q in
  (¬ (speed_limit (obs_map_lane o) == 0)%Q ∨ (1 < length (obs_candidates o))%nat →
     speed_diff s' = margin ∧
     ((margin < min_speed s)%Q → min_speed s' = margin) ∧
     ((min_speed s <= margin)%Q → min_speed s' = min_speed s)) ∧
  ((speed_limit (obs_map_lane o) == 0)%Q → (length (obs_candidates o) ≤ 1)%nat →
     min_speed s' = min_speed s ∧ speed_diff s' = speed_diff s).
Proof.
  intros Hobs. rewrite (step_observed _ _ _ _ Hobs). simpl.
  pose proof (off_road_detection_frame (obs_time o) (obs_lane o) (obs_dist o)
    (obs_centre_dist o) (set_dist_to_boundary (obs_dist o)
       (speeding_detection (obs_limit o) (obs_speed o)
          (length (obs_candidates o)) (arrive lanes o s)))) as Hf.
  simpl in Hf. destruct Hf as (_ & _ & _ & _ & -> & -> & _).
  assert (Hzero : Qeq_bool (obs_limit o) 0 = true ↔ (speed_limit (obs_map_lane o) == 0)%Q).
  { rewrite Qeq_bool_iff. unfold obs_limit. split; intros H; lra. }
  unfold speeding_detection. split.
  - intros Hupd.
    assert (negb (Qeq_bool (obs_limit o) 0)
            || bool_decide (1 < length (obs_candidates o))%nat = true) as ->.
    { destruct Hupd as [Hnz|Hmany].
      - destruct (Qeq_bool (obs_limit o) 0) eqn:E; [|done].
        exfalso. apply Hnz. by apply Hzero.
      - rewrite (bool_decide_eq_true_2 _ Hmany). apply orb_true_r. }
    simpl. unfold Qlt_bool.
    destruct (Qle_bool (min_speed s) (obs_limit o - obs_speed o)) eqn:E; simpl.
    + apply Qle_bool_iff in E. split_and!; [done| |done]. intros Hlt. lra.
    + split_and!; [done..|]. intros Hle. apply Qle_bool_iff in Hle. congruence.
  - intros Hz Hone. apply Hzero in Hz. rewrite Hz. simpl.
    rewrite bool_decide_eq_false_2 by lia. done.
Qed.

(** ** The off-road detector *)

Section OffRoad.
Context `{C : Collaborators}.
Implicit Types (lanes : gmap string Lane) (s : state) (m : Message).

Lemma Qeq_bool_false (a b : Q) : ¬ (a == b)%Q → Qeq_bool a b = false.
Proof.
  intros H. destruct (Qeq_bool a b) eqn:E; [|done].
  by apply Qeq_bool_iff in E.
Qed.

Lemma Qle_bool_false (a b : Q) : ¬ (a <= b)%Q → Qle_bool a b = false.
Proof.
  intros H. destruct (Qle_bool a b) eqn:E; [|done].
  by apply Qle_bool_iff in E.
Qed.

(** First touch: the intersection is registered, nothing is recorded. *)
Lemma off_road_register t l d cd s :
  off_road_candidate_lane s = None → (d == 0)%Q →
  off_road_detection t l d cd s = set_off_road (Some l) (Some t) s.
Proof.
  intros Hc Hd. unfold off_road_detection.
  apply Qeq_bool_iff in Hd. rewrite Hc, Hd. done.
Qed.

(** Registered for at least the threshold and still touching: the centre
    distance is recorded. *)
Lemma off_road_confirmed t l d cd s c T :
  off_road_candidate_lane s = Some c → intersect_start_time s = Some T →
  (5 <= t - T)%Q → (d == 0)%Q →
  off_road_detection t l d cd s = append_dist cd s.
Proof.
  intros Hc HT Hgap Hd. unfold off_road_detection.
  apply Qeq_bool_iff in Hd. apply Qle_bool_iff in Hgap.
  rewrite Hc, HT. simpl. unfold OFF_LANE_THRESHOLD. by rewrite Hgap, Hd.
Qed.

(** Registered for less than the threshold and still touching: nothing
    happens. *)
Lemma off_road_hold t l d cd s c T :
  off_road_candidate_lane s = Some c → intersect_start_time s = Some T →
  ¬ (5 <= t - T)%Q → (d == 0)%Q →
  off_road_detection t l d cd s = s.
Proof.
  intros Hc HT Hgap Hd. unfold off_road_detection.
  apply Qeq_bool_iff in Hd. apply Qle_bool_false in Hgap.
  rewrite Hc, HT. simpl. unfold OFF_LANE_THRESHOLD.
  rewrite Hgap, Hd. simpl. by rewrite andb_false_r.
Qed.

(** Registered and no longer touching: the registration is removed,
    nothing is recorded. *)
Lemma off_road_release t l d cd s T :
  intersect_start_time s = Some T → ¬ (d == 0)%Q →
  off_road_detection t l d cd s = set_off_road None None s.
Proof.
  intros HT Hd. unfold off_road_detection.
  apply Qeq_bool_false in Hd. rewrite HT, Hd, andb_false_r.
  unfold OFF_LANE_THRESHOLD, Qlt_bool.
  destruct (Qle_bool 5 (t - T)) eqn:E; [done|]. simpl.
  destruct (Qle_bool 5 (t - T)) eqn:E'; [done|]. done.
Qed.

(** Nothing registered and not touching: the centre distance is
    recorded. *)
Lemma off_road_clear t l d cd s :
  intersect_start_time s = None → ¬ (d == 0)%Q →
  off_road_detection t l d cd s = append_dist cd s.
Proof.
  intros HT Hd. unfold off_road_detection.
  apply Qeq_bool_false in Hd. by rewrite HT, Hd, andb_false_r.
Qed.

Lemma dist_list_append v s : dist_list (append_dist v s) = dist_list s ++ [v].
Proof. done. Qed.

Lemma step_observed_off_road lanes s m o :
  observe lanes s m = Some o →
  step lanes s m =
    Normal (off_road_detection (obs_time o) (obs_lane o) (obs_dist o)
              (obs_centre_dist o) (before_off_road lanes o s)).
Proof. apply step_observed. Qed.

Lemma before_off_road_fields lanes o s :
  off_road_candidate_lane (before_off_road lanes o s) = off_road_candidate_lane s ∧
  intersect_start_time (before_off_road lanes o s) = intersect_start_time s ∧
  dist_list (before_off_road lanes o s) = dist_list s.
Proof.
  unfold before_off_road. simpl.
  pose proof (speeding_detection_frame (obs_limit o) (obs_speed o)
    (length (obs_candidates o)) (arrive lanes o s)) as Hf.
  simpl in Hf. by destruct Hf as (_ & _ & _ & -> & -> & _ & _ & -> & _).
Qed.

Lemma observe_time lanes s m o h :
  observe lanes s m = Some o → header (parsed_msg m) = Some h →
  obs_time o = timestamp_sec h.
Proof.
  unfold observe. intros Ho Hh. rewrite Hh in Ho.
  repeat case_match; try done. by injection Ho as <-.
Qed.

(** While every step touches, a registration stays as it is, and the
    samples recorded so far stay in the list. *)
Lemma touching_keeps_registration lanes msgs s c T :
  touching lanes s msgs →
  off_road_candidate_lane s = Some c → intersect_start_time s = Some T →
  ∃ s', run lanes s msgs = Normal s' ∧
    off_road_candidate_lane s' = Some c ∧ intersect_start_time s' = Some T ∧
    dist_list s `prefix_of` dist_list s'.
Proof.
  revert s. induction msgs as [|m msgs IH]; intros s Ht Hc HT.
  - by exists s.
  - destruct Ht as [(o & Ho & Hd) Ht]. simpl.
    rewrite (step_observed_off_road _ _ _ _ Ho) in Ht |- *. simpl in Ht.
    destruct (before_off_road_fields lanes o s) as (Hc' & HT' & Hl').
    rewrite Hc in Hc'. rewrite HT in HT'.
    destruct (Qlt_le_dec (obs_time o - T) 5) as [Hgap|Hgap];
      [apply Qlt_not_le in Hgap|]; cycle 1.
    + rewrite (off_road_confirmed _ _ _ _ _ c T) in Ht |- * by done.
      destruct (IH _ Ht) as (s' & Hrun & ? & ? & Hpre); [done..|].
      exists s'. split_and!; try done.
      etrans; [|exact Hpre]. rewrite dist_list_append, Hl'.
      by apply prefix_app_r.
    + rewrite (off_road_hold _ _ _ _ _ c T) in Ht |- * by done.
      destruct (IH _ Ht) as (s' & Hrun & ? & ? & Hpre); [done..|].
      exists s'. split_and!; try done. by rewrite <- Hl'.
Qed.

End OffRoad.

(** ** Runs *)

Section Runs.
Context `{C : Collaborators}.
Implicit Types (lanes : gmap string Lane) (s : state) (m : Message).

Lemma run_app lanes s l1 l2 :
  run lanes s (l1 ++ l2) =
  match run lanes s l1 with
  | Normal s1 => run lanes s1 l2
  | Raised e s1 => Raised e s1
  end.
Proof.
  revert s. induction l1 as [|m l1 IH]; intros s; [done|].
  simpl. destruct (step lanes s m); [apply IH|done].
Qed.

Lemma run_app_Normal lanes s l1 l2 s2 :
  run lanes s (l1 ++ l2) = Normal s2 →
  ∃ s1, run lanes s l1 = Normal s1 ∧ run lanes s1 l2 = Normal s2.
Proof.
  rewrite run_app. destruct (run lanes s l1) as [s1|]; [|done]. by exists s1.
Qed.

Lemma run_cons_Normal lanes s m l s2 :
  run lanes s (m :: l) = Normal s2 →
  ∃ s1, step lanes s m = Normal s1 ∧ run lanes s1 l = Normal s2.
Proof. simpl. destruct (step lanes s m) as [s1|]; [|done]. by exists s1. Qed.

Lemma touching_app lanes l1 l2 s :
  touching lanes s (l1 ++ l2) →
  touching lanes s l1 ∧
  ∀ s1, run lanes s l1 = Normal s1 → touching lanes s1 l2.
Proof.
  revert s. induction l1 as [|m l1 IH]; intros s Ht.
  - split; [done|]. by intros ? [= <-].
  - destruct Ht as [(o & Ho & Hd) Ht]. apply IH in Ht as [Ht1 Ht2].
    split; [split; [by exists o|done]|].
    intros s1. simpl. rewrite (step_observed _ _ _ _ Ho) in Ht2 |- *.
    apply Ht2.
Qed.

End Runs.

(** ** Evaluation on explicit sessions *)

Ltac compute_eq := vm_compute; reflexivity.
Ltac compute_ne := vm_compute; discriminate.
Ltac touching_steps :=
  repeat (split; [eexists; split; [compute_eq | compute_eq]|]); exact I.

(** C1 as stated fails.  After five time units of touching (registered at
    time 6), the step at time 11 has polygon-to-boundary distance 0 and
    appends 0.5, the distance of the centre point; the list of the session
    has no 0-valued sample after two more such steps. *)
Lemma confirmed_touch_sample_not_zero :
  off_road_candidate_lane StripSessions.grazed = Some "a" ∧
  intersect_start_time StripSessions.grazed = Some 6%Q ∧
  (∃ o, observe Strip.lanes StripSessions.grazed (StripSessions.graze 11) = Some o ∧
        (5 <= obs_time o - 6)%Q ∧ (obs_dist o == 0)%Q) ∧
  dist_list StripSessions.grazed = [] ∧
  (∃ v, dist_list (state_of (step Strip.lanes StripSessions.grazed
                               (StripSessions.graze 11))) = [v] ∧
        ¬ (v == 0)%Q) ∧
  touching Strip.lanes StripSessions.started
    (StripSessions.grazing ++ [StripSessions.graze 11; StripSessions.graze 12]) ∧
  Forall (λ v, ¬ (v == 0)%Q)
    (dist_list (state_of (run Strip.lanes (initial_state [])
       (StripSessions.approach :: StripSessions.grazing
          ++ [StripSessions.graze 11; StripSessions.graze 12])))) ∧
  length (dist_list (state_of (run Strip.lanes (initial_state [])
       (StripSessions.approach :: StripSessions.grazing
          ++ [StripSessions.graze 11; StripSessions.graze 12])))) = 2%nat.
Proof.
  split_and!.
  - compute_eq.
  - compute_eq.
  - eexists. split_and!; [compute_eq | compute_ne | compute_eq].
  - compute_eq.
  - eexists. split; [compute_eq | compute_ne].
  - touching_steps.
  - vm_compute. repeat constructor; discriminate.
  - compute_eq.
Qed.

(** ** The resolver calls *)

Section ResolverCalls.
Context `{C : Collaborators}.
Implicit Types (lanes : gmap string Lane) (s : state) (m : Message).

Lemma step_keeps_hint lanes s m :
  priority_lanes s = None → Forall hint_is_None (fetch_log s) →
  priority_lanes (state_of (step lanes s m)) = None ∧
  Forall hint_is_None (fetch_log (state_of (step lanes s m))).
Proof.
  intros Hp Hlog.
  unfold step, on_planning, on_localization, after_warm_up,
    speeding_detection, off_road_detection.
  repeat case_match; simplify_eq; simpl in *;
    rewrite ?Hp; (split; [done|]);
    try done; apply Forall_app; (split; [done|]); by repeat constructor.
Qed.

End ResolverCalls.

Section HintInvariant.
Context `{C : Collaborators}.
Implicit Types (lanes : gmap string Lane) (s : state) (m : Message).

Lemma run_keeps_hint lanes msgs s :
  priority_lanes s = None → Forall hint_is_None (fetch_log s) →
  priority_lanes (state_of (run lanes s msgs)) = None ∧
  Forall hint_is_None (fetch_log (state_of (run lanes s msgs))).
Proof.
  revert s. induction msgs as [|m msgs IH]; intros s Hp Hlog; [done|].
  destruct (step_keeps_hint lanes s m Hp Hlog) as [Hp' Hlog'].
  simpl. destruct (step lanes s m) as [s1|e s1]; [by apply IH|done].
Qed.

(** Every localization message with a header and a pose makes one call,
    with the hint the state carries. *)
Lemma localization_step_logs_call lanes s m h p :
  channel_name m = localization_channel →
  header (parsed_msg m) = Some h → pose (parsed_msg m) = Some p →
  fetch_log (state_of (step lanes s m)) =
    fetch_log s ++ [{| call_x := Vec.x (position p);
                       call_y := Vec.y (position p);
                       call_current_lane := current_lane s;
                       call_priority_lanes := priority_lanes s |}].
Proof.
  intros Hc Hh Hp. rewrite (step_localization _ _ _ h) by done.
  unfold on_localization, after_warm_up, speeding_detection,
    off_road_detection.
  rewrite Hp. by repeat case_match.
Qed.

End HintInvariant.

(** C10.  Throughout a pass, whatever the messages and also when the pass
    is left by an exception, the variable [priority_lanes] is [None], and
    the priority hint of every call of the lane resolver made during the
    pass is [None]. *)
Theorem resolver_hint_always_None `{C : Collaborators}
    (lanes : gmap string Lane) (dist_list0 : list Q) (messages : list Message) :
  priority_lanes (state_of (run lanes (initial_state dist_list0) messages)) = None ∧
  Forall hint_is_None
    (fetch_log (state_of (run lanes (initial_state dist_list0) messages))).
Proof. apply run_keeps_hint; [done|]. constructor. Qed.

(** ** Malformed messages *)

(** C8 (amended).  The pass has no handler: a message whose payload lacks a
    field the pass reads from it raises [AttributeError] out of the loop.
    The pass stops at that message whatever follows it; [lanes_set] and
    [speed_list] are not updated, and [dist_list] keeps the samples appended
    before. *)
Theorem malformed_message_stops_pass `{C : Collaborators}
    (lanes : gmap string Lane) (pre post : list Message) (m : Message)
    (s : state) (lanes_set : gset string) (speed_list dist_list0 : list Q) :
  run lanes (initial_state dist_list0) pre = Normal s →
  malformed m →
  ∃ s', step lanes s m = Raised AttributeError s' ∧
    run lanes (initial_state dist_list0) (pre ++ m :: post) = Raised AttributeError s' ∧
    dist_list s' = dist_list s ∧
    walk_msg_section (pre ++ m :: post) lanes lanes_set speed_list dist_list0 =
      (Some AttributeError, (lanes_set, speed_list, dist_list s)).
Proof.
  intros Hpre Hbad.
  assert (∃ s', step lanes s m = Raised AttributeError s' ∧
                dist_list s' = dist_list s) as (s' & Hstep & Hd).
  { destruct (header (parsed_msg m)) as [h|] eqn:Hh;
      [|exists s; split; [by apply step_no_header|done]].
    destruct Hbad as [Hbad|[[Hc Hr]|[Hc Hp]]]; [congruence| |].
    - exists s. rewrite (step_planning _ _ _ h) by done.
      unfold on_planning. by rewrite Hr.
    - eexists. rewrite (step_localization _ _ _ h) by done.
      unfold on_localization. rewrite Hp. done. }
  exists s'. split_and!; [done| |done|].
  - rewrite run_app, Hpre. simpl. by rewrite Hstep.
  - unfold walk_msg_section. rewrite run_app, Hpre. simpl.
    by rewrite Hstep, Hd.
Qed.

(** ** The warm-up window *)

Section WarmUp.
Context `{C : Collaborators}.
Implicit Types (lanes : gmap string Lane) (s : state) (m : Message).

Lemma step_Normal_header lanes s m s' :
  step lanes s m = Normal s' → is_Some (header (parsed_msg m)).
Proof. unfold step. by destruct (header (parsed_msg m)). Qed.

(** [init_timestamp] is assigned once, by the first localization
    message. *)
Lemma step_init_timestamp lanes s m s' :
  step lanes s m = Normal s' →
  init_timestamp s' =
    match init_timestamp s with
    | Some t0 => Some t0
    | None => first_localization_time [m]
    end.
Proof.
  unfold step, on_planning, on_localization, after_warm_up,
    speeding_detection, off_road_detection, first_localization_time.
  intros H. repeat case_match; simplify_eq; simpl in *; congruence.
Qed.

Lemma run_init_timestamp lanes msgs s s' :
  run lanes s msgs = Normal s' →
  init_timestamp s' =
    match init_timestamp s with
    | Some t0 => Some t0
    | None => first_localization_time msgs
    end.
Proof.
  revert s. induction msgs as [|m msgs IH]; intros s Hrun.
  - injection Hrun as <-. by destruct (init_timestamp s).
  - apply run_cons_Normal in Hrun as (s1 & Hstep & Hrun).
    rewrite (IH _ Hrun), (step_init_timestamp _ _ _ _ Hstep).
    destruct (step_Normal_header _ _ _ _ Hstep) as [h Hh].
    destruct (init_timestamp s); [done|]. simpl. rewrite Hh.
    by case_decide.
Qed.

Lemma first_localization_time_app pre rest t :
  first_localization_time pre = Some t →
  first_localization_time (pre ++ rest) = Some t.
Proof.
  induction pre as [|m pre IH]; [done|]. simpl. by case_decide.
Qed.

(** A step adds a lane to [traveled_lanes] only after the warm-up, and
    the lane is the one it resolved. *)
Lemma step_traveled lanes s m l :
  l ∈ traveled_lanes (state_of (step lanes s m)) →
  l ∈ traveled_lanes s ∨ resolved_after_warm_up lanes s m l.
Proof.
  destruct (header (parsed_msg m)) as [h|] eqn:Hh;
    [|rewrite step_no_header by done; by left].
  destruct (decide (channel_name m = localization_channel)) as [Hc|Hc]; cycle 1.
  { unfold step, on_planning. rewrite Hh.
    repeat case_match; simplify_eq; simpl; by left. }
  unfold resolved_after_warm_up.
  rewrite (step_localization _ _ _ h) by done.
  unfold on_localization.
  destruct (pose (parsed_msg m)) as [p|]; [|by left]. simpl.
  destruct (select_lane _ _ _) as [chosen|e]; [|by left]. simpl.
  destruct (init_timestamp s) as [t0|] eqn:Ht0; [|by left].
  destruct (Qle_bool (timestamp_sec h - t0) 5) eqn:Hw; [by left|].
  assert (Hlate : ¬ (timestamp_sec h - t0 <= 5)%Q).
  { intros Hle. apply Qle_bool_iff in Hle. congruence. }
  unfold after_warm_up. simpl.
  destruct chosen as [l0|]; [|by left].
  assert (Hadd : l ∈ traveled_lanes s ∪ {[l0]} →
            l ∈ traveled_lanes s ∨
            localization_channel = localization_channel ∧
            ∃ h' t0', Some h = Some h' ∧ Some t0 = Some t0' ∧
              ¬ (timestamp_sec h' - t0' <= 5)%Q ∧ Some l0 = Some l).
  { intros [?| ->%elem_of_singleton]%elem_of_union; [by left|right].
    split; [done|]. by exists h, t0. }
  rewrite Hc, Hh.
  destruct (lanes !! l0) as [lane|]; [|exact Hadd].
  simpl.
  match goal with
  | |- context [off_road_detection ?t ?l ?d ?cd ?x] =>
      pose proof (off_road_detection_frame t l d cd x) as Hf
  end.
  simpl in Hf. destruct Hf as (-> & -> & _).
  match goal with
  | |- context [speeding_detection ?a ?b ?n ?x] =>
      pose proof (speeding_detection_frame a b n x) as Hf
  end.
  simpl in Hf. destruct Hf as (-> & -> & _). simpl. exact Hadd.
Qed.

Lemma run_traveled lanes msgs s l :
  l ∈ traveled_lanes (state_of (run lanes s msgs)) →
  l ∈ traveled_lanes s ∨
  ∃ pre m post s1, msgs = pre ++ m :: post ∧
    run lanes s pre = Normal s1 ∧ resolved_after_warm_up lanes s1 m l.
Proof.
  revert s. induction msgs as [|m msgs IH]; intros s; [by left|].
  simpl. destruct (step lanes s m) as [s1|e s1] eqn:Hstep.
  - intros [Hin|(pre & m' & post & s2 & -> & Hrun & Hres)]%IH.
    + assert (Hin' : l ∈ traveled_lanes (state_of (step lanes s m)))
        by (by rewrite Hstep).
      apply step_traveled in Hin' as [?|?]; [by left|right].
      by exists [], m, msgs, s.
    + right. exists (m :: pre), m', post, s2. simpl. by rewrite Hstep.
  - intros Hin.
    assert (Hin' : l ∈ traveled_lanes (state_of (step lanes s m)))
      by (by rewrite Hstep).
    apply step_traveled in Hin' as [?|?]; [by left|right].
    by exists [], m, msgs, s.
Qed.

End WarmUp.

(** C5.  In a pass, a localization message whose time stamp is at most 5
    time units after that of the first localization message adds no
    traveled lane, changes no speed margin and appends no boundary-distance
    sample; and every lane of the final traveled set was the resolved
    current lane of a localization step later than that. *)
Theorem warm_up_records_nothing `{C : Collaborators}
    (lanes : gmap string Lane) (dist_list0 : list Q) (messages : list Message) :
  (∀ pre m post s h t0,
     messages = pre ++ m :: post →
     run lanes (initial_state dist_list0) pre = Normal s →
     channel_name m = localization_channel →
     header (parsed_msg m) = Some h →
     first_localization_time messages = Some t0 →
     (timestamp_sec h - t0 <= 5)%Q →
     traveled_lanes (state_of (step lanes s m)) = traveled_lanes s ∧
     min_speed (state_of (step lanes s m)) = min_speed s ∧
     speed_diff (state_of (step lanes s m)) = speed_diff s ∧
     dist_list (state_of (step lanes s m)) = dist_list s)
  ∧
  (∀ l,
     l ∈ traveled_lanes (state_of (run lanes (initial_state dist_list0) messages)) →
     ∃ pre m post s h t0,
       messages = pre ++ m :: post ∧
       run lanes (initial_state dist_list0) pre = Normal s ∧
       channel_name m = localization_channel ∧
       header (parsed_msg m) = Some h ∧
       first_localization_time messages = Some t0 ∧
       ¬ (timestamp_sec h - t0 <= 5)%Q ∧
       current_lane (state_of (step lanes s m)) = Some l).
Proof.
  split.
  - intros pre m post s h t0 -> Hrun Hc Hh Hfirst Hle.
    assert (Hw : in_warm_up s (timestamp_sec h)).
    { unfold in_warm_up. rewrite (run_init_timestamp _ _ _ _ Hrun). simpl.
      destruct (first_localization_time pre) as [t1|] eqn:Hpre; [|done].
      rewrite (first_localization_time_app _ _ _ Hpre) in Hfirst.
      by injection Hfirst as ->. }
    destruct (step_warm_up_frame lanes s m h Hc Hh Hw)
      as (? & ? & ? & _ & _ & _ & ?).
    done.
  - intros l [Hin|(pre & m & post & s & -> & Hrun & Hc & h & t0 & Hh & Ht0 & Hlate & Hl)]%run_traveled.
    + by apply not_elem_of_empty in Hin.
    + exists pre, m, post, s, h, t0. split_and!; try done.
      rewrite (run_init_timestamp _ _ _ _ Hrun) in Ht0. simpl in Ht0.
      by apply first_localization_time_app.
Qed.

(** ** Debouncing *)

Section Debounce.
Context `{C : Collaborators}.
Implicit Types (lanes : gmap string Lane) (s : state) (m : Message).

(** A step that is not observed never reaches the off-road detector. *)
Lemma step_unobserved lanes s m :
  observe lanes s m = None →
  off_road_candidate_lane (state_of (step lanes s m)) = off_road_candidate_lane s ∧
  intersect_start_time (state_of (step lanes s m)) = intersect_start_time s ∧
  dist_list (state_of (step lanes s m)) = dist_list s.
Proof.
  intros Hobs.
  destruct (header (parsed_msg m)) as [h|] eqn:Hh;
    [|by rewrite step_no_header].
  destruct (decide (channel_name m = localization_channel)) as [Hc|Hc]; cycle 1.
  { unfold step, on_planning. rewrite Hh.
    by repeat case_match; simplify_eq. }
  rewrite (step_localization _ _ _ h) by done.
  unfold observe, candidates in Hobs. rewrite decide_True, Hh in Hobs by done.
  unfold on_localization.
  destruct (pose (parsed_msg m)) as [p|]; [|done]. simpl.
  destruct (select_lane _ _ _) as [chosen|e]; [|done]. simpl.
  destruct (init_timestamp s) as [t0|]; [|done].
  destruct (Qle_bool (timestamp_sec h - t0) 5); [done|].
  unfold after_warm_up. simpl.
  destruct chosen as [l|]; [|done].
  by destruct (lanes !! l).
Qed.

(** The five things the detector can do, given that the candidate and its
    start time are set together. *)
Lemma off_road_cases t l d cd s :
  (off_road_candidate_lane s = None ↔ intersect_start_time s = None) →
  (off_road_candidate_lane s = None ∧ (d == 0)%Q ∧
     off_road_detection t l d cd s = set_off_road (Some l) (Some t) s) ∨
  (intersect_start_time s = None ∧ ¬ (d == 0)%Q ∧
     off_road_detection t l d cd s = append_dist cd s) ∨
  (∃ T, intersect_start_time s = Some T ∧ (d == 0)%Q ∧ (5 <= t - T)%Q ∧
     off_road_detection t l d cd s = append_dist cd s) ∨
  (∃ T, intersect_start_time s = Some T ∧ (d == 0)%Q ∧
     off_road_detection t l d cd s = s) ∨
  (∃ T, intersect_start_time s = Some T ∧ ¬ (d == 0)%Q ∧
     off_road_detection t l d cd s = set_off_road None None s).
Proof.
  intros Hboth.
  destruct (Qeq_dec d 0) as [Hd|Hd];
    destruct (intersect_start_time s) as [T|] eqn:HT.
  - destruct (off_road_candidate_lane s) as [c|] eqn:Hc;
      [|by destruct Hboth as [H _]; specialize (H eq_refl)].
    destruct (Qlt_le_dec (t - T) 5) as [Hgap|Hgap].
    + apply Qlt_not_le in Hgap. do 3 right. left. exists T.
      split_and!; [done..|]. by apply (off_road_hold _ _ _ _ _ c T).
    + do 2 right. left. exists T.
      split_and!; [done..|]. by apply (off_road_confirmed _ _ _ _ _ c T).
  - left. assert (Hc : off_road_candidate_lane s = None) by (by apply Hboth).
    split_and!; [done..|]. by apply off_road_register.
  - do 4 right. exists T. split_and!; [done..|]. by apply (off_road_release _ _ _ _ _ T).
  - right. left. split_and!; [done..|]. by apply off_road_clear.
Qed.

Lemma no_release_snoc lanes mid s s1 m :
  run lanes s mid = Normal s1 →
  no_release lanes s mid →
  (∀ o, observe lanes s1 m = Some o → (obs_dist o == 0)%Q) →
  no_release lanes s (mid ++ [m]).
Proof.
  revert s. induction mid as [|m' mid IH]; intros s Hrun Hno Hm.
  - injection Hrun as ->. by split.
  - apply run_cons_Normal in Hrun as (s' & Hstep & Hrun).
    destruct Hno as [Hm' Hno]. rewrite Hstep in Hno. simpl in Hno.
    split; [done|]. rewrite Hstep. simpl. by apply IH.
Qed.

Lemma touch_since_snoc lanes s0 msgs s1 m T :
  run lanes s0 msgs = Normal s1 →
  touch_since lanes s0 msgs T →
  (∀ o, observe lanes s1 m = Some o → (obs_dist o == 0)%Q) →
  touch_since lanes s0 (msgs ++ [m]) T.
Proof.
  intros Hrun (pre & mj & mid & sj & oj & -> & Hpre & Hoj & Hdj & HTj & Hno) Hm.
  exists pre, mj, (mid ++ [m]), sj, oj.
  split_and!; try done; [by rewrite <- app_assoc|].
  apply run_app_Normal in Hrun as (sj' & Hpre' & Hrun).
  apply run_cons_Normal in Hrun as (sj'' & Hstep & Hrun).
  assert (sj' = sj) as -> by congruence.
  rewrite Hstep in Hno |- *. simpl in *. by eapply no_release_snoc.
Qed.

(** In a pass, the candidate and its start time are set together, and a
    registration at time [T] witnesses a touch sustained since [T]. *)
Lemma run_registration lanes s0 msgs s :
  off_road_candidate_lane s0 = None → intersect_start_time s0 = None →
  run lanes s0 msgs = Normal s →
  (off_road_candidate_lane s = None ↔ intersect_start_time s = None) ∧
  ∀ T, intersect_start_time s = Some T → touch_since lanes s0 msgs T.
Proof.
  intros Hc0 HT0. revert s.
  induction msgs as [|m msgs IH] using rev_ind; intros s Hrun.
  - injection Hrun as <-. split; [by rewrite Hc0, HT0|]. intros T. by rewrite HT0.
  - apply run_app_Normal in Hrun as (s1 & Hrun1 & Hrun).
    apply run_cons_Normal in Hrun as (s' & Hstep & [= ->]).
    destruct (IH _ Hrun1) as [Hboth Hsince].
    destruct (observe lanes s1 m) as [o|] eqn:Hobs; cycle 1.
    { destruct (step_unobserved lanes s1 m Hobs) as (Hc & HT & _).
      rewrite Hstep in Hc, HT. simpl in Hc, HT. rewrite Hc, HT.
      split; [done|]. intros T HT1.
      apply (touch_since_snoc _ _ _ s1); [done|by apply Hsince|].
      intros o. by rewrite Hobs. }
    rewrite (step_observed_off_road _ _ _ _ Hobs) in Hstep.
    injection Hstep as <-.
    destruct (before_off_road_fields lanes o s1) as (Hc' & HT' & _).
    assert (Hboth' : off_road_candidate_lane (before_off_road lanes o s1) = None ↔
                     intersect_start_time (before_off_road lanes o s1) = None)
      by (by rewrite Hc', HT').
    remember (before_off_road lanes o s1) as b eqn:Hb. clear Hb.
    destruct (off_road_cases (obs_time o) (obs_lane o) (obs_dist o)
                (obs_centre_dist o) _ Hboth')
      as [(_ & Hd & ->)|[(HT1 & _ & ->)|[(T1 & HT1 & Hd & _ & ->)|
          [(T1 & HT1 & Hd & ->)|(_ & _ & _ & ->)]]]]; simpl.
    + split; [done|]. intros T [= <-].
      exists msgs, m, [], s1, o. by split_and!.
    + rewrite Hc', HT'. split; [done|]. intros T HT1'.
      rewrite HT' in HT1. congruence.
    + rewrite Hc', HT'. split; [done|]. intros T HT1'.
      apply (touch_since_snoc _ _ _ s1); [done|by apply Hsince|].
      intros o'. rewrite Hobs. by intros [= <-].
    + split; [by rewrite Hc', HT'|]. intros T HT1'.
      apply (touch_since_snoc _ _ _ s1); [done| |].
      * apply Hsince. by rewrite <- HT'.
      * intros o'. rewrite Hobs. by intros [= <-].
    + done.
Qed.

End Debounce.

(** ** A touch that is sustained *)

Section Sustained.
Context `{C : Collaborators}.
Implicit Types (lanes : gmap string Lane) (s : state) (m : Message).

(** While no observed step is clear of the boundary, whatever other
    messages come in between, a registration stays as it is and the samples
    recorded so far stay in the list. *)
Lemma no_release_keeps_registration lanes msgs s s' c T :
  no_release lanes s msgs →
  off_road_candidate_lane s = Some c → intersect_start_time s = Some T →
  run lanes s msgs = Normal s' →
  off_road_candidate_lane s' = Some c ∧ intersect_start_time s' = Some T ∧
  dist_list s `prefix_of` dist_list s'.
Proof.
  revert s. induction msgs as [|m msgs IH]; intros s Hno Hc HT Hrun.
  { by injection Hrun as <-. }
  destruct Hno as [Hm Hno].
  apply run_cons_Normal in Hrun as (s1 & Hstep & Hrun).
  rewrite Hstep in Hno. simpl in Hno.
  destruct (observe lanes s m) as [o|] eqn:Hobs.
  - specialize (Hm o eq_refl).
    rewrite (step_observed_off_road _ _ _ _ Hobs) in Hstep.
    destruct (before_off_road_fields lanes o s) as (Hc' & HT' & Hl').
    rewrite Hc in Hc'. rewrite HT in HT'.
    destruct (Qlt_le_dec (obs_time o - T) 5) as [Hgap|Hgap].
    + apply Qlt_not_le in Hgap.
      rewrite (off_road_hold _ _ _ _ _ c T) in Hstep by done.
      injection Hstep as <-.
      destruct (IH _ Hno Hc' HT' Hrun) as (? & ? & Hpre).
      split_and!; [done..|]. by rewrite <- Hl'.
    + rewrite (off_road_confirmed _ _ _ _ _ c T) in Hstep by done.
      injection Hstep as <-.
      destruct (IH _ Hno Hc' HT' Hrun) as (? & ? & Hpre).
      split_and!; [done..|].
      etrans; [|exact Hpre]. rewrite dist_list_append, Hl'.
      by apply prefix_app_r.
  - destruct (step_unobserved lanes s m Hobs) as (Hc' & HT' & Hl').
    rewrite Hstep in Hc', HT', Hl'. simpl in Hc', HT', Hl'.
    destruct (IH s1 Hno) as (? & ? & Hpre); [congruence..|done|].
    split_and!; [done..|]. by rewrite <- Hl'.
Qed.

End Sustained.

(** C1 (amended).  At an observed step at which a boundary touch is
    registered, has lasted for at least the threshold
    ([current_time - intersect_start_time >= 5]) and the polygon-to-boundary
    distance is 0, exactly one value is appended to the sample list: the
    distance of the vehicle's centre point to the lane line string, whatever
    it is.  Consequently, in a session in which the vehicle polygon touches
    the boundary for 5 time units or more, the touch is recorded: when an
    observed step with polygon-to-boundary distance 0 finds nothing
    registered, the pass then goes on normally over any messages (of any
    channel) among which no observed step is clear of the boundary, and an
    observed step with distance 0 follows at least 5 time units after the
    first, this last step appends its centre distance to the list. *)
Theorem confirmed_touch_records_centre_distance `{C : Collaborators}
    (lanes : gmap string Lane) :
  (∀ s m o c T,
     observe lanes s m = Some o →
     off_road_candidate_lane s = Some c → intersect_start_time s = Some T →
     (5 <= obs_time o - T)%Q → (obs_dist o == 0)%Q →
     ∃ s', step lanes s m = Normal s' ∧
       dist_list s' = dist_list s ++ [obs_centre_dist o] ∧
       off_road_candidate_lane s' = Some c ∧ intersect_start_time s' = Some T)
  ∧
  (∀ s m1 mids mk o1 sk ok,
     off_road_candidate_lane s = None →
     observe lanes s m1 = Some o1 → (obs_dist o1 == 0)%Q →
     no_release lanes (state_of (step lanes s m1)) mids →
     run lanes s (m1 :: mids) = Normal sk →
     observe lanes sk mk = Some ok → (obs_dist ok == 0)%Q →
     (5 <= obs_time ok - obs_time o1)%Q →
     ∃ s',
       run lanes s (m1 :: mids ++ [mk]) = Normal s' ∧
       dist_list s' = dist_list sk ++ [obs_centre_dist ok] ∧
       dist_list s `prefix_of` dist_list sk ∧
       intersect_start_time s' = Some (obs_time o1)).
Proof.
  assert (Hstep : ∀ s m o c T,
     observe lanes s m = Some o →
     off_road_candidate_lane s = Some c → intersect_start_time s = Some T →
     (5 <= obs_time o - T)%Q → (obs_dist o == 0)%Q →
     ∃ s', step lanes s m = Normal s' ∧
       dist_list s' = dist_list s ++ [obs_centre_dist o] ∧
       off_road_candidate_lane s' = Some c ∧ intersect_start_time s' = Some T).
  { intros s m o c T Ho Hc HT Hgap Hd.
    destruct (before_off_road_fields lanes o s) as (Hc' & HT' & Hl').
    rewrite Hc in Hc'. rewrite HT in HT'.
    eexists. split; [by apply step_observed_off_road|].
    rewrite (off_road_confirmed _ _ _ _ _ c T) by done.
    rewrite dist_list_append, Hl'. done. }
  split; [exact Hstep|].
  intros s m1 mids mk o1 sk ok Hclear Ho1 Hd1 Hno Hrun Hok Hdk Hgap.
  destruct (before_off_road_fields lanes o1 s) as (Hc1 & _ & Hl1).
  rewrite Hclear in Hc1.
  apply run_cons_Normal in Hrun as (s1 & Hstep1 & Hrun).
  rewrite Hstep1 in Hno. simpl in Hno.
  assert (Hreg : s1 = set_off_road (Some (obs_lane o1)) (Some (obs_time o1))
                        (before_off_road lanes o1 s)).
  { rewrite (step_observed_off_road _ _ _ _ Ho1) in Hstep1.
    rewrite off_road_register in Hstep1 by done. by injection Hstep1 as <-. }
  destruct (no_release_keeps_registration lanes mids s1 sk (obs_lane o1)
              (obs_time o1) Hno) as (Hck & HTk & Hpre);
    [by rewrite Hreg..|done|].
  destruct (Hstep sk mk ok _ _ Hok Hck HTk Hgap Hdk) as (s' & Hs' & Hl' & _ & HT').
  exists s'. split_and!; [|done| |done].
  - change (m1 :: mids ++ [mk]) with ((m1 :: mids) ++ [mk]).
    rewrite run_app. simpl. rewrite Hstep1, Hrun. simpl. by rewrite Hs'.
  - rewrite <- Hl1. by rewrite Hreg in Hpre.
Qed.

(** The statement of C1 on the strip map: the vehicle lies across the
    boundary of lane [a] from time 6 on, a planning message and a chassis
    message arrive in between, and the step at time 11 records the centre
    distance. *)
Lemma confirmed_touch_records_centre_distance_witness :
  (∃ s', step Strip.lanes StripSessions.grazed (StripSessions.graze 11) = Normal s' ∧
     dist_list s' =
       dist_list StripSessions.grazed
         ++ [obs_centre_dist (StripSessions.graze_observation 11)] ∧
     off_road_candidate_lane s' = Some "a" ∧ intersect_start_time s' = Some 6%Q)
  ∧
  (∃ s',
     run Strip.lanes StripSessions.started
       (StripSessions.graze 6 :: grazing_among_others ++ [StripSessions.graze 11])
       = Normal s' ∧
     dist_list s' =
       dist_list (state_of (run Strip.lanes StripSessions.started
                              (StripSessions.graze 6 :: grazing_among_others)))
         ++ [obs_centre_dist (StripSessions.graze_observation 11)] ∧
     dist_list StripSessions.started `prefix_of`
       dist_list (state_of (run Strip.lanes StripSessions.started
                              (StripSessions.graze 6 :: grazing_among_others))) ∧
     intersect_start_time s' = Some (obs_time (StripSessions.graze_observation 6))).
Proof.
  split.
  - apply (proj1 (confirmed_touch_records_centre_distance Strip.lanes)
             StripSessions.grazed (StripSessions.graze 11)
             (StripSessions.graze_observation 11) "a" 6%Q).
    + compute_eq.
    + compute_eq.
    + compute_eq.
    + compute_ne.
    + compute_eq.
  - apply (proj2 (confirmed_touch_records_centre_distance Strip.lanes)
             StripSessions.started (StripSessions.graze 6)
             grazing_among_others (StripSessions.graze 11)
             (StripSessions.graze_observation 6)
             (state_of (run Strip.lanes StripSessions.started
                          (StripSessions.graze 6 :: grazing_among_others)))
             (StripSessions.graze_observation 11)).
    + compute_eq.
    + compute_eq.
    + compute_eq.
    + repeat (split;
        [intros o Ho; vm_compute in Ho;
         first [discriminate Ho | injection Ho as <-; compute_eq]|]).
      exact I.
    + compute_eq.
    + compute_eq.
    + compute_eq.
    + compute_ne.
Defined.

(** C6.  A boundary touch that lasts a single step (an observed step with
    polygon-to-boundary distance 0 when nothing is registered, immediately
    followed by an observed step with nonzero distance) appends nothing to
    the sample list and leaves nothing registered, whatever the time between
    the two steps.  And when a step of a pass appends a 0-valued sample, a
    touch was registered at least 5 time units before, the vehicle polygon
    touches the boundary at this step, and no observed step in between was
    clear of the boundary.  The second part is for a vehicle polygon that
    contains its centre point: the centre is on the line string only if the
    polygon touches it. *)
Theorem single_touch_is_debounced `{C : Collaborators} (lanes : gmap string Lane) :
  (∀ s m1 m2 o1 o2,
     off_road_candidate_lane s = None →
     observe lanes s m1 = Some o1 → (obs_dist o1 == 0)%Q →
     observe lanes (state_of (step lanes s m1)) m2 = Some o2 →
     ¬ (obs_dist o2 == 0)%Q →
     ∃ s2, run lanes s [m1; m2] = Normal s2 ∧
       dist_list s2 = dist_list s ∧
       off_road_candidate_lane s2 = None ∧ intersect_start_time s2 = None)
  ∧
  (∀ dist_list0 pre m s v,
     run lanes (initial_state dist_list0) pre = Normal s →
     (∀ o, observe lanes s m = Some o →
           (obs_centre_dist o == 0)%Q → (obs_dist o == 0)%Q) →
     dist_list (state_of (step lanes s m)) = dist_list s ++ [v] →
     (v == 0)%Q →
     ∃ o T,
       observe lanes s m = Some o ∧
       intersect_start_time s = Some T ∧
       touch_since lanes (initial_state dist_list0) pre T ∧
       (obs_dist o == 0)%Q ∧ (5 <= obs_time o - T)%Q).
Proof.
  split.
  - intros s m1 m2 o1 o2 Hclear Ho1 Hd1 Ho2 Hd2.
    simpl. rewrite (step_observed_off_road _ _ _ _ Ho1) in Ho2 |- *.
    simpl in Ho2.
    destruct (before_off_road_fields lanes o1 s) as (Hc1 & _ & Hl1).
    rewrite Hclear in Hc1.
    rewrite off_road_register in Ho2 |- * by done.
    rewrite (step_observed_off_road _ _ _ _ Ho2).
    eexists. split; [done|].
    match goal with
    | |- context [before_off_road lanes o2 ?x] =>
        destruct (before_off_road_fields lanes o2 x) as (_ & HT2 & Hl2)
    end.
    rewrite (off_road_release _ _ _ _ _ (obs_time o1)) by done.
    split_and!; [|done..].
    change (dist_list (set_off_road None None ?x)) with (dist_list x).
    by rewrite Hl2.
  - intros d0 pre m s v Hrun Hgeo Happ Hv.
    destruct (run_registration lanes (initial_state d0) pre s eq_refl eq_refl Hrun)
      as [Hboth Hsince].
    destruct (observe lanes s m) as [o|] eqn:Hobs; cycle 1.
    { destruct (step_unobserved lanes s m Hobs) as (_ & _ & Hl).
      rewrite Hl in Happ. apply (f_equal length) in Happ.
      rewrite length_app in Happ. simpl in Happ. lia. }
    rewrite (step_observed_off_road _ _ _ _ Hobs) in Happ. simpl in Happ.
    destruct (before_off_road_fields lanes o s) as (Hc' & HT' & Hl').
    assert (Hboth' : off_road_candidate_lane (before_off_road lanes o s) = None ↔
                     intersect_start_time (before_off_road lanes o s) = None)
      by (by rewrite Hc', HT').
    remember (before_off_road lanes o s) as b eqn:Hb. clear Hb.
    assert (Hsame : dist_list b ≠ dist_list s ++ [v]).
    { rewrite Hl'. intros E. apply (f_equal length) in E.
      rewrite length_app in E. simpl in E. lia. }
    destruct (off_road_cases (obs_time o) (obs_lane o) (obs_dist o)
                (obs_centre_dist o) b Hboth')
      as [(_ & _ & E)|[(_ & Hd & E)|[(T & HT & Hd & Hgap & E)|
          [(_ & _ & _ & E)|(_ & _ & _ & E)]]]]; rewrite E in Happ;
      try done.
    + rewrite dist_list_append, Hl' in Happ.
      apply app_inj_tail in Happ as [_ Hcd].
      exfalso. apply Hd, (Hgeo o eq_refl). by rewrite Hcd.
    + rewrite HT' in HT. exists o, T. split_and!; try done. by apply Hsince.
Qed.

(** ** The statements on explicit sessions *)

(** The statement of C3 for a vehicle in lane [b] and a plan over lane [a]. *)
Lemma routing_update_unknown_lane_witness :
  get_next_lanes (Strip.route ["a"]) (Some "b") = [] ∧
  step Strip.lanes StripSessions.started_in_b (Strip.plan 1 ["a"]) =
    Normal (set_next_lanes [] StripSessions.started_in_b).
Proof.
  apply (routing_update_unknown_lane Strip.lanes StripSessions.started_in_b
           (Strip.plan 1 ["a"]) {| timestamp_sec := 1 |} (Strip.route ["a"]) "b").
  - reflexivity.
  - reflexivity.
  - reflexivity.
  - compute_eq.
  - change (plan_ids (Strip.route ["a"])) with ["a"].
    apply not_elem_of_cons. split; [discriminate | apply not_elem_of_nil].
Defined.

(** C3 as stated fails: the vehicle is in lane [b], the new plan is over
    lane [a] alone, and the recomputed [next_lanes] is empty, not the
    plan. *)
Lemma routing_update_unknown_lane_not_full_plan :
  current_lane StripSessions.started_in_b = Some "b" ∧
  plan_ids (Strip.route ["a"]) = ["a"] ∧
  next_lanes (state_of (step Strip.lanes StripSessions.started_in_b
                          (Strip.plan 1 ["a"]))) = [] ∧
  next_lanes (state_of (step Strip.lanes StripSessions.started_in_b
                          (Strip.plan 1 ["a"]))) ≠ plan_ids (Strip.route ["a"]).
Proof. split_and!; [compute_eq | reflexivity | compute_eq | compute_ne]. Qed.

(** The statement of C4 for a message one time unit after the first. *)
Lemma warm_up_step_sets_lane_witness :
  ∃ s', step Strip.lanes StripSessions.started StripSessions.crossing = Normal s' ∧
    current_lane s' = Some "b" ∧
    traveled_lanes s' = traveled_lanes StripSessions.started ∧
    min_speed s' = min_speed StripSessions.started ∧
    dist_list s' = dist_list StripSessions.started ∧
    off_road_candidate_lane s' = off_road_candidate_lane StripSessions.started ∧
    intersect_start_time s' = intersect_start_time StripSessions.started ∧
    next_lanes s' = next_lanes StripSessions.started.
Proof.
  apply (warm_up_step_sets_lane Strip.lanes StripSessions.started
           StripSessions.crossing {| timestamp_sec := 1 |}
           {| position := {| Vec.x := 5; Vec.y := 0 |};
              linear_velocity := {| Vec.x := 0; Vec.y := 0 |} |} (Some "b")).
  - reflexivity.
  - reflexivity.
  - reflexivity.
  - compute_ne.
  - compute_eq.
Defined.

(** C4 as stated fails: one time unit after the first localization message
    the carried lane is [a], the message is inside the warm-up window, and
    its step leaves the carried lane at [b]. *)
Lemma warm_up_step_changes_lane :
  current_lane StripSessions.started = Some "a" ∧
  in_warm_up StripSessions.started 1 ∧
  current_lane (state_of (step Strip.lanes StripSessions.started
                            StripSessions.crossing)) = Some "b" ∧
  current_lane (state_of (step Strip.lanes StripSessions.started
                            StripSessions.crossing))
    ≠ current_lane StripSessions.started.
Proof. split_and!; [compute_eq | compute_ne | compute_eq | compute_ne]. Qed.

(** The statement of C7 at a step in lane [a] (limit 36 km/h) at 18 km/h. *)
Lemma margin_update_condition_witness :
  let s' := state_of (step Strip.lanes StripSessions.started StripSessions.cruise) in
  let margin := (obs_limit StripSessions.cruise_observation
                 - obs_speed StripSessions.cruise_observation)%Q in
  (¬ (speed_limit (obs_map_lane StripSessions.cruise_observation) == 0)%Q ∨
   (1 < length (obs_candidates StripSessions.cruise_observation))%nat →
     speed_diff s' = margin ∧
     ((margin < min_speed StripSessions.started)%Q → min_speed s' = margin) ∧
     ((min_speed StripSessions.started <= margin)%Q →
        min_speed s' = min_speed StripSessions.started)) ∧
  ((speed_limit (obs_map_lane StripSessions.cruise_observation) == 0)%Q →
   (length (obs_candidates StripSessions.cruise_observation) ≤ 1)%nat →
     min_speed s' = min_speed StripSessions.started ∧
     speed_diff s' = speed_diff StripSessions.started).
Proof.
  apply (margin_update_condition Strip.lanes StripSessions.started
           StripSessions.cruise StripSessions.cruise_observation).
  compute_eq.
Defined.

(** The statement of C9 for a plan over the lanes [a] and [b]. *)
Lemma routing_update_idempotent_witness :
  run Strip.lanes StripSessions.started
    [Strip.plan 1 ["a"; "b"]; Strip.plan 1 ["a"; "b"]] =
  run Strip.lanes StripSessions.started [Strip.plan 1 ["a"; "b"]] ∧
  ∀ h r, header (parsed_msg (Strip.plan 1 ["a"; "b"])) = Some h →
    routing (parsed_msg (Strip.plan 1 ["a"; "b"])) = Some r →
    run Strip.lanes StripSessions.started
      [Strip.plan 1 ["a"; "b"]; Strip.plan 1 ["a"; "b"]] =
    Normal (set_next_lanes (get_next_lanes r (current_lane StripSessions.started))
              StripSessions.started).
Proof.
  apply (routing_update_idempotent Strip.lanes StripSessions.started
           (Strip.plan 1 ["a"; "b"])).
  reflexivity.
Defined.

(** The statement of C8 for a localization message without a pose. *)
Lemma malformed_message_stops_pass_witness :
  ∃ s', step Strip.lanes StripSessions.started (StripSessions.no_pose 3) =
          Raised AttributeError s' ∧
    run Strip.lanes (initial_state [])
      ([StripSessions.approach] ++ StripSessions.no_pose 3 :: [StripSessions.cruise]) =
      Raised AttributeError s' ∧
    dist_list s' = dist_list StripSessions.started ∧
    walk_msg_section
      ([StripSessions.approach] ++ StripSessions.no_pose 3 :: [StripSessions.cruise])
      Strip.lanes ∅ [] [] =
      (Some AttributeError, (∅, [], dist_list StripSessions.started)).
Proof.
  apply (malformed_message_stops_pass Strip.lanes [StripSessions.approach]
           [StripSessions.cruise] (StripSessions.no_pose 3)
           StripSessions.started ∅ [] []).
  - compute_eq.
  - right. right. split; reflexivity.
Defined.

(** C8 as stated fails: a localization message without a pose between two
    well-formed ones makes the pass raise; the message after it is not
    processed and nothing is reported, whereas the pass over the two
    well-formed messages alone reports a margin and a distance sample. *)
Lemma malformed_message_is_fatal :
  (walk_msg_section
     [StripSessions.approach; StripSessions.no_pose 3; StripSessions.cruise]
     Strip.lanes ∅ [] []).1 = Some AttributeError ∧
  (walk_msg_section
     [StripSessions.approach; StripSessions.no_pose 3; StripSessions.cruise]
     Strip.lanes ∅ [] []).2.1.2 = [] ∧
  (walk_msg_section
     [StripSessions.approach; StripSessions.no_pose 3; StripSessions.cruise]
     Strip.lanes ∅ [] []).2.2 = [] ∧
  (walk_msg_section [StripSessions.approach; StripSessions.cruise]
     Strip.lanes ∅ [] []).1 = None ∧
  (walk_msg_section [StripSessions.approach; StripSessions.cruise]
     Strip.lanes ∅ [] []).2.1.2 = [18.00%Q] ∧
  (walk_msg_section [StripSessions.approach; StripSessions.cruise]
     Strip.lanes ∅ [] []).2.2 = [2%Q].
Proof. split_and!; compute_eq. Qed.

(** The statement of C5 on a session of three localization messages, at
    times 0, 1 and 6. *)
Lemma warm_up_records_nothing_witness :
  (traveled_lanes (state_of (step Strip.lanes StripSessions.started
                               StripSessions.crossing)) =
     traveled_lanes StripSessions.started ∧
   min_speed (state_of (step Strip.lanes StripSessions.started
                          StripSessions.crossing)) =
     min_speed StripSessions.started ∧
   speed_diff (state_of (step Strip.lanes StripSessions.started
                           StripSessions.crossing)) =
     speed_diff StripSessions.started ∧
   dist_list (state_of (step Strip.lanes StripSessions.started
                          StripSessions.crossing)) =
     dist_list StripSessions.started)
  ∧
  (∃ pre m post s h t0,
     [StripSessions.approach; StripSessions.crossing; StripSessions.cruise] =
       pre ++ m :: post ∧
     run Strip.lanes (initial_state []) pre = Normal s ∧
     channel_name m = localization_channel ∧
     header (parsed_msg m) = Some h ∧
     first_localization_time
       [StripSessions.approach; StripSessions.crossing; StripSessions.cruise] =
       Some t0 ∧
     ¬ (timestamp_sec h - t0 <= 5)%Q ∧
     current_lane (state_of (step Strip.lanes s m)) = Some "a").
Proof.
  destruct (warm_up_records_nothing Strip.lanes []
              [StripSessions.approach; StripSessions.crossing; StripSessions.cruise])
    as [Hwarm Htraveled].
  split.
  - apply (Hwarm [StripSessions.approach] StripSessions.crossing
             [StripSessions.cruise] StripSessions.started
             {| timestamp_sec := 1 |} 0%Q).
    + reflexivity.
    + compute_eq.
    + reflexivity.
    + reflexivity.
    + reflexivity.
    + compute_ne.
  - apply Htraveled. apply elem_of_elements.
    assert (elements (traveled_lanes (state_of (run Strip.lanes (initial_state [])
              [StripSessions.approach; StripSessions.crossing; StripSessions.cruise])))
            = ["a"]) as -> by compute_eq.
    apply list_elem_of_here.
Defined.

(** The statement of C6 on the strip map: a touch at time 6 released at
    time 7, and a vehicle whose centre is on the boundary line from time 6
    to time 11. *)
Lemma single_touch_is_debounced_witness :
  (∃ s2, run Strip.lanes StripSessions.started
           [StripSessions.graze 6; StripSessions.clear_at 7] = Normal s2 ∧
     dist_list s2 = dist_list StripSessions.started ∧
     off_road_candidate_lane s2 = None ∧ intersect_start_time s2 = None)
  ∧
  (∃ o T,
     observe Strip.lanes StripSessions.ridden (StripSessions.on_line 11) = Some o ∧
     intersect_start_time StripSessions.ridden = Some T ∧
     touch_since Strip.lanes (initial_state [])
       (StripSessions.approach :: StripSessions.riding) T ∧
     (obs_dist o == 0)%Q ∧ (5 <= obs_time o - T)%Q).
Proof.
  split.
  - eapply (proj1 (single_touch_is_debounced Strip.lanes) StripSessions.started
              (StripSessions.graze 6) (StripSessions.clear_at 7)).
    + compute_eq.
    + compute_eq.
    + compute_eq.
    + compute_eq.
    + compute_ne.
  - apply (proj2 (single_touch_is_debounced Strip.lanes) []
             (StripSessions.approach :: StripSessions.riding)
             (StripSessions.on_line 11) StripSessions.ridden 0%Q).
    + compute_eq.
    + intros o Ho _. vm_compute in Ho. injection Ho as <-. compute_eq.
    + compute_eq.
    + reflexivity.
Defined.

(** * Further properties of the code *)

(** ** [get_next_lanes] *)

(** X1.  Whatever the current lane, [get_next_lanes] returns a suffix of the
    plan: lane ids are kept in plan order and, once one is kept, so are all
    that follow, across passages and roads. *)
Theorem get_next_lanes_is_suffix (r : RoutingResponse) (cur : option string) :
  get_next_lanes r cur `suffix_of` plan_ids r.
Proof.
  destruct cur as [c|]; [|by rewrite get_next_lanes_None].
  destruct (decide (c ∈ plan_ids r)) as [Hin|Hout].
  - apply list_elem_of_split_l in Hin as (before & after & Hp & Hb).
    rewrite (get_next_lanes_split r c before after Hp Hb), Hp.
    by apply suffix_app_r.
  - rewrite get_next_lanes_miss by done. apply suffix_nil.
Qed.

(** X2.  When the current lane occurs in the plan, the result is the plan
    from the first occurrence of that lane on: the lane itself and every
    segment after it, also those of later passages and roads. *)
Theorem get_next_lanes_from_first_occurrence (r : RoutingResponse) (c : string) :
  c ∈ plan_ids r →
  ∃ before after,
    plan_ids r = before ++ c :: after ∧ (c ∉ before) ∧
    get_next_lanes r (Some c) = c :: after.
Proof.
  intros Hin. apply list_elem_of_split_l in Hin as (before & after & Hp & Hb).
  exists before, after. split_and!; [done..|].
  by apply get_next_lanes_split with before.
Qed.

(** The statement of X2 on a plan of two roads, for the second lane of the
    first road. *)
Lemma get_next_lanes_from_first_occurrence_witness :
  ∃ before after,
    plan_ids two_roads = before ++ "b" :: after ∧ ("b" ∉ before) ∧
    get_next_lanes two_roads (Some "b") = "b" :: after.
Proof.
  apply get_next_lanes_from_first_occurrence.
  apply list_elem_of_further, list_elem_of_here.
Defined.

(** X3.  Called without a current lane ([current_lane_id=None], the
    default), [get_next_lanes] returns every lane id of the plan, in plan
    order. *)
Theorem get_next_lanes_without_lane (r : RoutingResponse) :
  get_next_lanes r None = plan_ids r.
Proof. by rewrite get_next_lanes_flat, visit_ids_no_lane. Qed.

(** ** The disambiguator *)

(** After the scan [back_lane] is the last candidate that is traveled and
    not in [next_lanes]. *)
Lemma scan_back nl tl cands acc :
  (fold_left (scan_suspect nl tl) cands acc).1 =
  match last (filter (λ c, (c ∉ nl) ∧ c ∈ tl) cands) with
  | Some b => Some b
  | None => acc.1
  end.
Proof.
  revert acc. induction cands as [|c cands IH]; intros acc; [done|].
  simpl. rewrite IH, filter_cons.
  destruct (decide ((c ∉ nl) ∧ c ∈ tl)) as [[Hnl Htl]|Hno].
  - rewrite last_cons.
    destruct (last (filter _ cands)) as [e|]; [done|].
    apply index_None in Hnl. unfold scan_suspect. rewrite Hnl.
    by rewrite decide_True.
  - destruct (last (filter _ cands)) as [e|]; [done|].
    unfold scan_suspect.
    destruct (index nl c) as [i|] eqn:Hi; [done|].
    apply index_None in Hi. case_decide; [|done]. by destruct Hno.
Qed.

Lemma filter_last_elem_of (P : string → Prop) `{!∀ x, Decision (P x)}
    (l : list string) (x : string) :
  last (filter P l) = Some x → P x ∧ x ∈ l.
Proof.
  intros Hl. apply last_Some_elem_of in Hl. by apply list_elem_of_filter in Hl.
Qed.

(** [select_lane] returns normally, and what it returns. *)
Lemma select_lane_Ok cands nl tl :
  ∃ r, select_lane cands nl tl = Ok r ∧
    (r = None ↔ cands = []) ∧ (∀ l, r = Some l → l ∈ cands).
Proof.
  destruct cands as [|a [|b rest]].
  - exists None. by split_and!.
  - exists (Some a). split_and!; [done|done|].
    intros l [= <-]. apply list_elem_of_here.
  - set (cands := a :: b :: rest).
    cbv beta iota zeta delta [select_lane]. fold cands.
    rewrite scan_loc, scan_back.
    destruct (last (routing_candidates cands nl)) as [c|] eqn:Hr.
    + apply filter_last_elem_of in Hr as [Hnl Hc].
      destruct (index_is_Some _ _ Hnl) as (i & -> & ->).
      exists (Some c). split_and!; [done|done|]. by intros l [= <-].
    + simpl.
      destruct (last (filter _ cands)) as [back|] eqn:Hb.
      * apply filter_last_elem_of in Hb as [_ Hc].
        exists (Some back). split_and!; [done|done|]. by intros l [= <-].
      * exists (Some a). split_and!; [done|done|].
        intros l [= <-]. apply list_elem_of_here.
Qed.

(** X4.  The disambiguator always returns (its read [next_lanes[loc]] is
    never out of range).  It returns no lane exactly when there is no
    candidate, and a lane it returns is one of the candidates. *)
Theorem select_lane_picks_a_candidate
    (current_lanes next_lanes : list string) (traveled_lanes : gset string) :
  ∃ r, select_lane current_lanes next_lanes traveled_lanes = Ok r ∧
    (r = None ↔ current_lanes = []) ∧
    (∀ l, r = Some l → l ∈ current_lanes).
Proof. apply select_lane_Ok. Qed.

Lemma filter_none_on_route (cands nl : list string) (tl : gset string) :
  (∀ c, c ∈ cands → c ∉ nl) →
  routing_candidates cands nl = [] ∧
  filter (λ c, (c ∉ nl) ∧ c ∈ tl) cands = filter (λ c, c ∈ tl) cands.
Proof.
  induction cands as [|c cands IH]; intros Hno; [done|].
  destruct IH as [IH1 IH2].
  { intros c' Hc'. apply Hno. by apply list_elem_of_further. }
  assert (Hc : c ∉ nl) by apply Hno, list_elem_of_here.
  unfold routing_candidates in *. rewrite !filter_cons, IH1, IH2.
  rewrite decide_False by done. split; [done|].
  destruct (decide (c ∈ tl)).
  - by rewrite decide_True.
  - rewrite decide_False; [done|]. by intros [_ ?].
Qed.

(** X5.  With more than one candidate and none of them in [next_lanes], the
    resolved lane is the last candidate, in candidate order, that is in
    [traveled_lanes]; when there is none either, it is the first
    candidate. *)
Theorem select_lane_fallback
    (current_lanes next_lanes : list string) (traveled_lanes : gset string) :
  (1 < length current_lanes)%nat →
  (∀ c, c ∈ current_lanes → c ∉ next_lanes) →
  select_lane current_lanes next_lanes traveled_lanes =
    Ok (match last (filter (λ c, c ∈ traveled_lanes) current_lanes) with
        | Some back_lane => Some back_lane
        | None => head current_lanes
        end).
Proof.
  intros Hlen Hno.
  destruct (filter_none_on_route current_lanes next_lanes traveled_lanes Hno)
    as [Hr Hb].
  destruct current_lanes as [|a [|b rest]]; simpl in Hlen; [lia..|].
  set (cands := a :: b :: rest) in *.
  cbv beta iota zeta delta [select_lane]. fold cands.
  rewrite scan_loc, scan_back, Hr, Hb. simpl.
  by destruct (last (filter _ cands)).
Qed.

(** The statement of X5 for two candidates off the route, both traveled. *)
Lemma select_lane_fallback_witness :
  select_lane ["a"; "b"] ["x"] {["a"; "b"]} =
    Ok (match last (filter (λ c, c ∈ ({["a"; "b"]} : gset string)) ["a"; "b"]) with
        | Some back_lane => Some back_lane
        | None => head ["a"; "b"]
        end).
Proof.
  apply (select_lane_fallback ["a"; "b"] ["x"] {["a"; "b"]}).
  - simpl. lia.
  - intros c Hc Hx. apply list_elem_of_singleton in Hx as ->.
    apply elem_of_cons in Hc as [Hc|Hc]; [discriminate|].
    apply list_elem_of_singleton in Hc. discriminate.
Defined.

(** ** What a pass keeps *)

Section PassInvariants.
Context `{C : Collaborators}.
Implicit Types (lanes : gmap string Lane) (s : state) (m : Message).



(** The margin update never raises the minimum, and brings it under the
    margin when the margin is considered. *)
Lemma speeding_detection_min limit speed n s :
  (min_speed (speeding_detection limit speed n s) <= min_speed s)%Q ∧
  (negb (Qeq_bool limit 0) || bool_decide (1 < n)%nat = true →
   (min_speed (speeding_detection limit speed n s) <= limit - speed)%Q).
Proof.
  unfold speeding_detection, Qlt_bool.
  destruct (negb (Qeq_bool limit 0) || bool_decide (1 < n)%nat);
    [|split; [apply Qle_refl|done]].
  simpl. destruct (Qle_bool (min_speed s) (limit - speed)) eqn:E; simpl.
  - apply Qle_bool_iff in E. split; [apply Qle_refl|done].
  - assert (¬ (min_speed s <= limit - speed)%Q) as Hn.
    { intros Hle. apply Qle_bool_iff in Hle. congruence. }
    apply Qnot_le_lt in Hn. split; [by apply Qlt_le_weak|intros _; apply Qle_refl].
Qed.

Lemma off_road_detection_dist t l d cd s :
  dist_list s `prefix_of` dist_list (off_road_detection t l d cd s).
Proof.
  unfold off_road_detection.
  repeat case_match; simpl; first [done | by apply prefix_app_r].
Qed.

Lemma before_off_road_more lanes (o : Observation) s :
  traveled_lanes (before_off_road lanes o s) = traveled_lanes s ∪ {[obs_lane o]} ∧
  current_lane (before_off_road lanes o s) = Some (obs_lane o) ∧
  next_lanes (before_off_road lanes o s) = next_lanes s ∧
  init_timestamp (before_off_road lanes o s) = init_timestamp s ∧
  min_speed (before_off_road lanes o s) =
    min_speed (speeding_detection (obs_limit o) (obs_speed o)
                 (length (obs_candidates o)) (arrive lanes o s)).
Proof.
  unfold before_off_road. simpl.
  pose proof (speeding_detection_frame (obs_limit o) (obs_speed o)
    (length (obs_candidates o)) (arrive lanes o s)) as Hf.
  simpl in Hf. by destruct Hf as (-> & -> & _ & _ & _ & -> & -> & _).
Qed.

(** A step that is not observed changes no margin, and adds a traveled lane
    only when it raises [KeyError]. *)
Lemma step_unobserved_more lanes s m :
  observe lanes s m = None →
  traveled_lanes s ⊆ traveled_lanes (state_of (step lanes s m)) ∧
  min_speed (state_of (step lanes s m)) = min_speed s ∧
  (∀ s', step lanes s m = Normal s' → traveled_lanes s' = traveled_lanes s).
Proof.
  intros Hobs.
  destruct (header (parsed_msg m)) as [h|] eqn:Hh;
    [|by rewrite step_no_header].
  destruct (decide (channel_name m = localization_channel)) as [Hc|Hc]; cycle 1.
  { unfold step, on_planning. rewrite Hh.
    repeat case_match; simplify_eq; simpl; split_and!; try done;
      by intros ? [= <-]. }
  rewrite (step_localization _ _ _ h) by done.
  unfold observe, candidates in Hobs. rewrite decide_True, Hh in Hobs by done.
  unfold on_localization.
  destruct (pose (parsed_msg m)) as [p|]; [|done]. simpl.
  destruct (select_lane _ _ _) as [chosen|e]; [|done]. simpl.
  destruct (init_timestamp s) as [t0|];
    [|split_and!; try done; by intros ? [= <-]].
  destruct (Qle_bool (timestamp_sec h - t0) 5);
    [split_and!; try done; by intros ? [= <-]|].
  unfold after_warm_up. simpl.
  destruct chosen as [l|]; [|split_and!; try done; by intros ? [= <-]].
  destruct (lanes !! l); [done|]. simpl. split_and!; [set_solver|done|done].
Qed.

Lemma observe_lane_known lanes s m (o : Observation) :
  observe lanes s m = Some o → lanes !! obs_lane o = Some (obs_map_lane o).
Proof.
  unfold observe. intros H. repeat case_match; simplify_eq. done.
Qed.

(** One iteration only extends the traveled set and the sample list and
    never raises the minimum. *)
Lemma step_extends lanes s m :
  traveled_lanes s ⊆ traveled_lanes (state_of (step lanes s m)) ∧
  dist_list s `prefix_of` dist_list (state_of (step lanes s m)) ∧
  (min_speed (state_of (step lanes s m)) <= min_speed s)%Q.
Proof.
  destruct (observe lanes s m) as [o|] eqn:Hobs.
  - rewrite (step_observed_off_road _ _ _ _ Hobs).
    destruct (before_off_road_more lanes o s) as (Ht & _ & _ & _ & Hm).
    destruct (before_off_road_fields lanes o s) as (_ & _ & Hl).
    remember (before_off_road lanes o s) as b eqn:Hb. clear Hb.
    pose proof (off_road_detection_frame (obs_time o) (obs_lane o) (obs_dist o)
                  (obs_centre_dist o) b) as Hf.
    pose proof (off_road_detection_dist (obs_time o) (obs_lane o) (obs_dist o)
                  (obs_centre_dist o) b) as Hp.
    simpl in Hf. destruct Hf as (Hf1 & _ & _ & _ & Hf2 & _).
    simpl. rewrite Hf1, Hf2, Ht, Hm. rewrite Hl in Hp.
    split_and!; [apply union_subseteq_l|done|].
    exact (proj1 (speeding_detection_min _ _ _ (arrive lanes o s))).
  - destruct (step_unobserved lanes s m Hobs) as (_ & _ & ->).
    destruct (step_unobserved_more lanes s m Hobs) as (? & -> & _).
    split_and!; [done|done|apply Qle_refl].
Qed.

Lemma run_extends lanes msgs s :
  traveled_lanes s ⊆ traveled_lanes (state_of (run lanes s msgs)) ∧
  dist_list s `prefix_of` dist_list (state_of (run lanes s msgs)) ∧
  (min_speed (state_of (run lanes s msgs)) <= min_speed s)%Q.
Proof.
  revert s. induction msgs as [|m msgs IH]; intros s.
  { split_and!; [done|done|apply Qle_refl]. }
  destruct (step_extends lanes s m) as (Ht & Hd & Hm).
  simpl. destruct (step lanes s m) as [s1|e s1]; [|done].
  simpl in *. destruct (IH s1) as (Ht' & Hd' & Hm').
  split_and!; [by etrans|by etrans|by eapply Qle_trans].
Qed.

(** One iteration keeps the candidate and its start time set together. *)
Lemma step_keeps_pair lanes s m :
  (off_road_candidate_lane s = None ↔ intersect_start_time s = None) →
  (off_road_candidate_lane (state_of (step lanes s m)) = None ↔
   intersect_start_time (state_of (step lanes s m)) = None).
Proof.
  intros Hboth.
  destruct (observe lanes s m) as [o|] eqn:Hobs; cycle 1.
  { by destruct (step_unobserved lanes s m Hobs) as (-> & -> & _). }
  rewrite (step_observed_off_road _ _ _ _ Hobs). simpl.
  destruct (before_off_road_fields lanes o s) as (Hc' & HT' & _).
  assert (Hboth' : off_road_candidate_lane (before_off_road lanes o s) = None ↔
                   intersect_start_time (before_off_road lanes o s) = None)
    by (by rewrite Hc', HT').
  remember (before_off_road lanes o s) as b eqn:Hb. clear Hb.
  destruct (off_road_cases (obs_time o) (obs_lane o) (obs_dist o)
              (obs_centre_dist o) b Hboth')
    as [(_ & _ & ->)|[(_ & _ & ->)|[(_ & _ & _ & _ & ->)|
        [(_ & _ & _ & ->)|(_ & _ & _ & ->)]]]]; done.
Qed.

Lemma run_keeps_pair lanes msgs s :
  (off_road_candidate_lane s = None ↔ intersect_start_time s = None) →
  (off_road_candidate_lane (state_of (run lanes s msgs)) = None ↔
   intersect_start_time (state_of (run lanes s msgs)) = None).
Proof.
  revert s. induction msgs as [|m msgs IH]; intros s Hboth; [done|].
  pose proof (step_keeps_pair lanes s m Hboth) as Hstep.
  simpl. destruct (step lanes s m) as [s1|e s1]; [by apply IH|done].
Qed.

(** A pass that goes on only has traveled lanes that [lanes] knows. *)
Lemma run_traveled_known lanes msgs s s' :
  (∀ l, l ∈ traveled_lanes s → is_Some (lanes !! l)) →
  run lanes s msgs = Normal s' →
  ∀ l, l ∈ traveled_lanes s' → is_Some (lanes !! l).
Proof.
  revert s. induction msgs as [|m msgs IH]; intros s Hs Hrun.
  { by injection Hrun as <-. }
  apply run_cons_Normal in Hrun as (s1 & Hstep & Hrun).
  apply (IH s1); [|done]. intros l Hl.
  destruct (observe lanes s m) as [o|] eqn:Hobs.
  - rewrite (step_observed_off_road _ _ _ _ Hobs) in Hstep.
    injection Hstep as <-.
    destruct (before_off_road_more lanes o s) as (Ht & _).
    pose proof (off_road_detection_frame (obs_time o) (obs_lane o) (obs_dist o)
                  (obs_centre_dist o) (before_off_road lanes o s)) as Hf.
    cbv zeta in Hf. destruct Hf as (Hf & _). rewrite Hf, Ht in Hl.
    apply elem_of_union in Hl as [Hl|Hl]; [by apply Hs|].
    apply elem_of_singleton in Hl as ->.
    rewrite (observe_lane_known _ _ _ _ Hobs). by eexists.
  - destruct (step_unobserved_more lanes s m Hobs) as (_ & _ & Hsame).
    rewrite (Hsame _ Hstep) in Hl. by apply Hs.
Qed.

End PassInvariants.



(** X7.  [walk_msg_section] only extends what its caller passed in:
    [lanes_set] is contained in the set it leaves, [dist_list] is a prefix of
    the list it leaves.  When it returns, [speed_list] has exactly one more
    entry, at most [sys.maxsize]; when an exception leaves it, [lanes_set]
    and [speed_list] are as they were. *)
Theorem walk_msg_section_extends `{C : Collaborators}
    (messages : list Message) (lanes : gmap string Lane)
    (lanes_set : gset string) (speed_list dist_list0 : list Q) :
  lanes_set ⊆ (walk_msg_section messages lanes lanes_set speed_list dist_list0).2.1.1 ∧
  dist_list0 `prefix_of`
    (walk_msg_section messages lanes lanes_set speed_list dist_list0).2.2 ∧
  match (walk_msg_section messages lanes lanes_set speed_list dist_list0).1 with
  | None =>
      ∃ v, (walk_msg_section messages lanes lanes_set speed_list dist_list0).2.1.2
             = speed_list ++ [v] ∧ (v <= inject_Z sys_maxsize)%Q
  | Some _ =>
      (walk_msg_section messages lanes lanes_set speed_list dist_list0).2.1
        = (lanes_set, speed_list)
  end.
Proof.
  unfold walk_msg_section.
  destruct (run_extends lanes messages (initial_state dist_list0)) as (_ & Hd & Hm).
  destruct (run lanes (initial_state dist_list0) messages) as [s|e s]; simpl in *.
  - split_and!; [apply union_subseteq_l|done|]. by exists (min_speed s).
  - by split_and!.
Qed.

(** X8.  From any point of a pass to any later point, the traveled set only
    grows, the sample list is only appended to, and the running minimum
    margin never increases. *)
Theorem pass_is_monotone `{C : Collaborators}
    (lanes : gmap string Lane) (s : state) (earlier later : list Message) :
  let s1 := state_of (run lanes s earlier) in
  let s2 := state_of (run lanes s (earlier ++ later)) in
  traveled_lanes s1 ⊆ traveled_lanes s2 ∧
  dist_list s1 `prefix_of` dist_list s2 ∧
  (min_speed s2 <= min_speed s1)%Q.
Proof.
  simpl. rewrite run_app.
  destruct (run lanes s earlier) as [s1|e s1]; simpl.
  - apply run_extends.
  - split_and!; [done|done|apply Qle_refl].
Qed.

(** X9.  In every state a pass reaches, also the one an exception leaves,
    the off-road candidate lane and the intersection start time are both
    set or both unset. *)
Theorem off_road_pair_set_together `{C : Collaborators}
    (lanes : gmap string Lane) (dist_list0 : list Q) (messages : list Message) :
  off_road_candidate_lane
    (state_of (run lanes (initial_state dist_list0) messages)) = None ↔
  intersect_start_time
    (state_of (run lanes (initial_state dist_list0) messages)) = None.
Proof. by apply run_keeps_pair. Qed.

(** X10.  When the loop of a pass ends normally, every traveled lane is a
    key of [lanes]: the reads [lanes[lane]] that [walk_messages] makes for
    the traveled lanes afterwards cannot fail. *)
Theorem traveled_lanes_are_known `{C : Collaborators}
    (lanes : gmap string Lane) (dist_list0 : list Q) (messages : list Message)
    (s : state) :
  run lanes (initial_state dist_list0) messages = Normal s →
  ∀ l, l ∈ traveled_lanes s → is_Some (lanes !! l).
Proof.
  apply run_traveled_known. intros l Hl. by apply not_elem_of_empty in Hl.
Qed.

(** The statement of X10 on a session with one step after the warm-up. *)
Lemma traveled_lanes_are_known_witness :
  is_Some (Strip.lanes !! "a").
Proof.
  apply (traveled_lanes_are_known Strip.lanes []
           [StripSessions.approach; StripSessions.cruise]
           (state_of (run Strip.lanes (initial_state [])
                        [StripSessions.approach; StripSessions.cruise]))).
  - compute_eq.
  - apply elem_of_elements.
    assert (elements (traveled_lanes (state_of (run Strip.lanes (initial_state [])
              [StripSessions.approach; StripSessions.cruise]))) = ["a"])
      as -> by compute_eq.
    apply list_elem_of_here.
Defined.

(** X11.  Map inconsistency is fatal.  When a localization step after the
    warm-up resolves a lane that is not a key of [lanes], the read
    [lanes[current_lane]] raises [KeyError] out of the pass.  The lane has
    been added to the local traveled set by then, but no margin and no
    sample is recorded, no later message is processed, and the caller's
    [lanes_set] and [speed_list] are not updated. *)
Theorem unknown_lane_raises_KeyError `{C : Collaborators}
    (lanes : gmap string Lane) (s : state) (m : Message) (rest : list Message)
    (h : Header) (p : Pose) (t0 : Q) (l : string) :
  channel_name m = localization_channel →
  header (parsed_msg m) = Some h →
  pose (parsed_msg m) = Some p →
  init_timestamp s = Some t0 →
  ¬ (timestamp_sec h - t0 <= 5)%Q →
  select_lane (candidates lanes p s) (next_lanes s) (traveled_lanes s) = Ok (Some l) →
  lanes !! l = None →
  ∃ s', run lanes s (m :: rest) = Raised KeyError s' ∧
    traveled_lanes s' = traveled_lanes s ∪ {[l]} ∧
    current_lane s' = Some l ∧
    min_speed s' = min_speed s ∧ dist_list s' = dist_list s ∧
    off_road_candidate_lane s' = off_road_candidate_lane s ∧
    intersect_start_time s' = intersect_start_time s.
Proof.
  intros Hc Hh Hp Ht0 Hlate Hsel Hl.
  simpl. rewrite (step_localization _ _ _ h) by done.
  unfold on_localization. rewrite Hp. simpl.
  unfold candidates in Hsel. rewrite Hsel. simpl. rewrite Ht0.
  rewrite Qle_bool_false by done.
  unfold after_warm_up. simpl. rewrite Hl.
  eexists. split; [done|]. by split_and!.
Qed.

(** The statement of X11 for the stale map index, which resolves the lane
    ["ghost"]. *)
Lemma unknown_lane_raises_KeyError_witness :
  ∃ s', run Stale.lanes Stale.started [Strip.loc 6 2 0 0; Strip.loc 7 2 0 0] =
          Raised KeyError s' ∧
    traveled_lanes s' = traveled_lanes Stale.started ∪ {["ghost"]} ∧
    current_lane s' = Some "ghost" ∧
    min_speed s' = min_speed Stale.started ∧
    dist_list s' = dist_list Stale.started ∧
    off_road_candidate_lane s' = off_road_candidate_lane Stale.started ∧
    intersect_start_time s' = intersect_start_time Stale.started.
Proof.
  apply (unknown_lane_raises_KeyError Stale.lanes Stale.started
           (Strip.loc 6 2 0 0) [Strip.loc 7 2 0 0] {| timestamp_sec := 6 |}
           {| position := {| Vec.x := 2; Vec.y := 0 |};
              linear_velocity := {| Vec.x := 0; Vec.y := 0 |} |} 0%Q "ghost").
  - reflexivity.
  - reflexivity.
  - reflexivity.
  - compute_eq.
  - apply Qlt_not_le. compute_eq.
  - compute_eq.
  - compute_eq.
Defined.

(** ** Messages the pass skips *)

Section Skipping.
Context `{C : Collaborators}.
Implicit Types (lanes : gmap string Lane) (s : state) (m : Message).

(** A message that is no localization message outside the warm-up window
    records nothing, whatever its channel and also when it raises. *)
Lemma step_records_nothing lanes s m :
  (∀ h, channel_name m = localization_channel →
        header (parsed_msg m) = Some h → in_warm_up s (timestamp_sec h)) →
  traveled_lanes (state_of (step lanes s m)) = traveled_lanes s ∧
  min_speed (state_of (step lanes s m)) = min_speed s ∧
  dist_list (state_of (step lanes s m)) = dist_list s.
Proof.
  intros Hw.
  destruct (header (parsed_msg m)) as [h|] eqn:Hh;
    [|by rewrite step_no_header].
  destruct (decide (channel_name m = localization_channel)) as [Hc|Hc].
  - destruct (step_warm_up_frame lanes s m h Hc Hh (Hw h Hc eq_refl))
      as (? & ? & ? & _).
    done.
  - unfold step, on_planning. rewrite Hh.
    by repeat case_match; simplify_eq.
Qed.

Lemma run_records_nothing lanes msgs s :
  (∀ m h, m ∈ msgs → channel_name m = localization_channel →
          header (parsed_msg m) = Some h →
          match init_timestamp s with
          | Some t0 => (timestamp_sec h - t0 <= 5)%Q
          | None => ∀ t0, first_localization_time msgs = Some t0 →
                          (timestamp_sec h - t0 <= 5)%Q
          end) →
  traveled_lanes (state_of (run lanes s msgs)) = traveled_lanes s ∧
  min_speed (state_of (run lanes s msgs)) = min_speed s ∧
  dist_list (state_of (run lanes s msgs)) = dist_list s.
Proof.
  revert s. induction msgs as [|m msgs IH]; intros s Hw; [done|].
  destruct (step_records_nothing lanes s m) as (Ht & Hm & Hd).
  { intros h Hc Hh. unfold in_warm_up.
    specialize (Hw m h (list_elem_of_here _ _) Hc Hh).
    by destruct (init_timestamp s). }
  simpl. destruct (step lanes s m) as [s1|e s1] eqn:Hstep; [|done].
  simpl in Ht, Hm, Hd. rewrite <- Ht, <- Hm, <- Hd. apply IH.
  intros m' h' Hin Hc' Hh'.
  specialize (Hw m' h' (list_elem_of_further _ _ _ Hin) Hc' Hh').
  rewrite (step_init_timestamp _ _ _ _ Hstep).
  destruct (init_timestamp s) as [t0|]; [done|].
  simpl in *. destruct (decide (channel_name m = localization_channel)).
  - destruct (step_Normal_header _ _ _ _ Hstep) as [h Hh].
    rewrite Hh in Hw |- *. simpl in *. by apply Hw.
  - done.
Qed.

Lemma step_next_lanes lanes s m :
  channel_name m ≠ planning_channel →
  next_lanes (state_of (step lanes s m)) = next_lanes s.
Proof.
  intros Hc.
  unfold step, on_planning, on_localization, after_warm_up,
    speeding_detection, off_road_detection.
  by repeat case_match; simplify_eq.
Qed.

End Skipping.

(** X12.  Messages of other channels than planning and localization change
    nothing: a pass over a stream and the pass over its planning and
    localization messages alone end the same way.  This is for messages that
    carry a header: the time stamp is read from every message, whatever its
    channel. *)
Theorem other_channels_are_ignored `{C : Collaborators}
    (lanes : gmap string Lane) (s : state) (messages : list Message) :
  (∀ m, m ∈ messages →
        channel_name m ≠ planning_channel →
        channel_name m ≠ localization_channel →
        is_Some (header (parsed_msg m))) →
  run lanes s messages =
  run lanes s
    (filter (λ m, channel_name m = planning_channel ∨
                  channel_name m = localization_channel) messages).
Proof.
  revert s. induction messages as [|m msgs IH]; intros s Hh; [done|].
  assert (Hrest : ∀ m', m' ∈ msgs →
            channel_name m' ≠ planning_channel →
            channel_name m' ≠ localization_channel →
            is_Some (header (parsed_msg m'))).
  { intros m' Hin. apply Hh. by apply list_elem_of_further. }
  rewrite filter_cons. case_decide as Hc.
  - simpl. destruct (step lanes s m); [by apply IH|done].
  - destruct (Hh m (list_elem_of_here _ _)) as [h Hm]; [tauto..|].
    simpl. rewrite (step_other _ _ _ h) by tauto. by apply IH.
Qed.

(** The statement of X12 on a session with two chassis messages. *)
Lemma other_channels_are_ignored_witness :
  run Strip.lanes (initial_state [])
    [chassis 0; StripSessions.approach; chassis 3; StripSessions.cruise] =
  run Strip.lanes (initial_state [])
    (filter (λ m, channel_name m = planning_channel ∨
                  channel_name m = localization_channel)
       [chassis 0; StripSessions.approach; chassis 3; StripSessions.cruise]).
Proof.
  apply (other_channels_are_ignored Strip.lanes (initial_state [])
           [chassis 0; StripSessions.approach; chassis 3; StripSessions.cruise]).
  intros m Hm _ _.
  repeat (apply elem_of_cons in Hm as [->|Hm]; [by eexists|]).
  by apply elem_of_nil in Hm.
Defined.

(** X13.  The warm-up clock of a pass is the time stamp of the first
    localization message of the stream: messages of other channels before it
    do not start the clock, and no later message resets it. *)
Theorem warm_up_clock_is_first_localization `{C : Collaborators}
    (lanes : gmap string Lane) (dist_list0 : list Q) (messages : list Message)
    (s : state) :
  run lanes (initial_state dist_list0) messages = Normal s →
  init_timestamp s = first_localization_time messages.
Proof. intros Hrun. by rewrite (run_init_timestamp _ _ _ _ Hrun). Qed.

(** The statement of X13 on a session that starts with a planning message
    at time 0 and has its first localization message at time 2. *)
Lemma warm_up_clock_is_first_localization_witness :
  init_timestamp
    (state_of (run Strip.lanes (initial_state [])
                 [Strip.plan 0 ["a"]; Strip.loc 2 2 0 0; Strip.loc 9 2 0 0])) =
  first_localization_time
    [Strip.plan 0 ["a"]; Strip.loc 2 2 0 0; Strip.loc 9 2 0 0].
Proof.
  apply (warm_up_clock_is_first_localization Strip.lanes []
           [Strip.plan 0 ["a"]; Strip.loc 2 2 0 0; Strip.loc 9 2 0 0]).
  compute_eq.
Defined.

(** X14.  [next_lanes] is only ever replaced by a planning message: the
    step of any other message, also one that resolves a new current lane or
    raises, leaves it as it is.  The route context is not re-cut when the
    vehicle moves on. *)
Theorem next_lanes_changes_only_on_planning `{C : Collaborators}
    (lanes : gmap string Lane) (s : state) (m : Message) :
  channel_name m ≠ planning_channel →
  next_lanes (state_of (step lanes s m)) = next_lanes s.
Proof. apply step_next_lanes. Qed.

(** The statement of X14 for a localization step that moves the vehicle
    from lane [a] to lane [b] after a plan over [a] and [b]. *)
Lemma next_lanes_changes_only_on_planning_witness :
  next_lanes
    (state_of (step Strip.lanes
                 (state_of (run Strip.lanes StripSessions.started
                              [Strip.plan 1 ["a"; "b"]]))
                 (Strip.loc 7 5 0 0))) =
  next_lanes (state_of (run Strip.lanes StripSessions.started
                          [Strip.plan 1 ["a"; "b"]])).
Proof.
  apply (next_lanes_changes_only_on_planning Strip.lanes
           (state_of (run Strip.lanes StripSessions.started
                        [Strip.plan 1 ["a"; "b"]]))
           (Strip.loc 7 5 0 0)).
  discriminate.
Defined.

(** X15.  A session all of whose localization messages lie within 5 time
    units of the first one records nothing: the traveled set stays empty,
    the minimum margin stays at the sentinel [sys.maxsize] and no sample is
    appended. *)
Theorem session_within_warm_up_records_nothing `{C : Collaborators}
    (lanes : gmap string Lane) (dist_list0 : list Q) (messages : list Message) :
  (∀ t0 m h,
     first_localization_time messages = Some t0 →
     m ∈ messages → channel_name m = localization_channel →
     header (parsed_msg m) = Some h →
     (timestamp_sec h - t0 <= 5)%Q) →
  traveled_lanes (state_of (run lanes (initial_state dist_list0) messages)) = ∅ ∧
  min_speed (state_of (run lanes (initial_state dist_list0) messages)) =
    inject_Z sys_maxsize ∧
  dist_list (state_of (run lanes (initial_state dist_list0) messages)) = dist_list0.
Proof.
  intros Hw. apply (run_records_nothing lanes messages (initial_state dist_list0)).
  intros m h Hin Hc Hh. simpl. intros t0 Ht0. by apply (Hw t0 m h).
Qed.

(** The statement of X15 on a session of two localization messages, at
    times 0 and 1. *)
Lemma session_within_warm_up_records_nothing_witness :
  traveled_lanes (state_of (run Strip.lanes (initial_state [])
                    [StripSessions.approach; StripSessions.crossing])) = ∅ ∧
  min_speed (state_of (run Strip.lanes (initial_state [])
                    [StripSessions.approach; StripSessions.crossing])) =
    inject_Z sys_maxsize ∧
  dist_list (state_of (run Strip.lanes (initial_state [])
                    [StripSessions.approach; StripSessions.crossing])) = [].
Proof.
  apply (session_within_warm_up_records_nothing Strip.lanes []
           [StripSessions.approach; StripSessions.crossing]).
  intros t0 m h [= <-] Hm _ Hh.
  apply elem_of_cons in Hm as [->|Hm]; [injection Hh as <-; compute_ne|].
  apply elem_of_cons in Hm as [->|Hm]; [injection Hh as <-; compute_ne|].
  by apply elem_of_nil in Hm.
Defined.

(** ** Observed steps *)

Section Observed.
Context `{C : Collaborators}.
Implicit Types (lanes : gmap string Lane) (s : state) (m : Message).

(** What an observed step has recorded when it is over. *)
Lemma step_observed_records lanes s m (o : Observation) :
  observe lanes s m = Some o →
  ∃ s1, step lanes s m = Normal s1 ∧
    obs_lane o ∈ traveled_lanes s1 ∧ current_lane s1 = Some (obs_lane o) ∧
    (¬ (speed_limit (obs_map_lane o) == 0)%Q ∨ (1 < length (obs_candidates o))%nat →
     (min_speed s1 <= obs_limit o - obs_speed o)%Q).
Proof.
  intros Hobs. eexists. split; [by apply step_observed_off_road|].
  destruct (before_off_road_more lanes o s) as (Ht & Hcur & _ & _ & Hm).
  pose proof (off_road_detection_frame (obs_time o) (obs_lane o) (obs_dist o)
                (obs_centre_dist o) (before_off_road lanes o s)) as Hf.
  cbv zeta in Hf. destruct Hf as (-> & -> & _ & _ & -> & _).
  rewrite Ht, Hcur, Hm. split_and!; [|done|].
  - apply elem_of_union_r. by apply elem_of_singleton.
  - intros Hguard.
    apply (proj2 (speeding_detection_min _ _ _ (arrive lanes o s))).
    destruct Hguard as [Hnz|Hmany].
    + rewrite Qeq_bool_false; [done|]. unfold obs_limit. intros E. apply Hnz. lra.
    + rewrite (bool_decide_eq_true_2 _ Hmany). apply orb_true_r.
Qed.

End Observed.

(** X16.  Every lane resolved at a localization step after the warm-up (with
    the lane known to [lanes]) is in the traveled set when the pass is over,
    whatever comes after that step. *)
Theorem observed_lane_is_traveled `{C : Collaborators}
    (lanes : gmap string Lane) (dist_list0 : list Q)
    (pre post : list Message) (m : Message) (s : state) (o : Observation) :
  run lanes (initial_state dist_list0) pre = Normal s →
  observe lanes s m = Some o →
  obs_lane o ∈
    traveled_lanes (state_of (run lanes (initial_state dist_list0) (pre ++ m :: post))).
Proof.
  intros Hrun Hobs.
  destruct (step_observed_records lanes s m o Hobs) as (s1 & Hstep & Hin & _).
  rewrite run_app, Hrun. simpl. rewrite Hstep.
  by apply (run_extends lanes post s1).
Qed.

(** The statement of X16 for the step in lane [a] of a session that then
    moves on to lane [b]. *)
Lemma observed_lane_is_traveled_witness :
  obs_lane StripSessions.cruise_observation ∈
    traveled_lanes
      (state_of (run Strip.lanes (initial_state [])
                   ([StripSessions.approach] ++ StripSessions.cruise
                      :: [Strip.loc 7 5 0 0]))).
Proof.
  apply (observed_lane_is_traveled Strip.lanes [] [StripSessions.approach]
           [Strip.loc 7 5 0 0] StripSessions.cruise StripSessions.started
           StripSessions.cruise_observation).
  - compute_eq.
  - compute_eq.
Defined.

(** X17.  The minimum margin a pass ends with is a lower bound of the
    margin [speed_limit - current_speed] of every step after the warm-up
    whose margin is considered (nonzero limit, or several candidates): no
    speeding instant is lost, whatever comes after it. *)
Theorem min_speed_bounds_every_margin `{C : Collaborators}
    (lanes : gmap string Lane) (dist_list0 : list Q)
    (pre post : list Message) (m : Message) (s : state) (o : Observation) :
  run lanes (initial_state dist_list0) pre = Normal s →
  observe lanes s m = Some o →
  ¬ (speed_limit (obs_map_lane o) == 0)%Q ∨ (1 < length (obs_candidates o))%nat →
  (min_speed (state_of (run lanes (initial_state dist_list0) (pre ++ m :: post)))
     <= obs_limit o - obs_speed o)%Q.
Proof.
  intros Hrun Hobs Hguard.
  destruct (step_observed_records lanes s m o Hobs) as (s1 & Hstep & _ & _ & Hm).
  rewrite run_app, Hrun. simpl. rewrite Hstep.
  eapply Qle_trans; [apply (run_extends lanes post s1)|by apply Hm].
Qed.

(** The statement of X17 for the step at 18 km/h in lane [a] (36 km/h). *)
Lemma min_speed_bounds_every_margin_witness :
  (min_speed
     (state_of (run Strip.lanes (initial_state [])
                  ([StripSessions.approach] ++ StripSessions.cruise
                     :: [Strip.loc 7 5 0 0])))
   <= obs_limit StripSessions.cruise_observation
      - obs_speed StripSessions.cruise_observation)%Q.
Proof.
  apply (min_speed_bounds_every_margin Strip.lanes [] [StripSessions.approach]
           [Strip.loc 7 5 0 0] StripSessions.cruise StripSessions.started
           StripSessions.cruise_observation).
  - compute_eq.
  - compute_eq.
  - left. compute_ne.
Defined.

(** X18.  A step after the warm-up at which the vehicle polygon is clear of
    the lane boundary leaves nothing registered.  When nothing was
    registered it appends the distance of the centre point to the sample
    list; when a touch was registered it removes the registration and
    appends nothing.  (The candidate and its start time are set together in
    the state the step starts from, as in every state of a pass.) *)
Theorem clear_step_records_clearance `{C : Collaborators}
    (lanes : gmap string Lane) (s : state) (m : Message) (o : Observation) :
  observe lanes s m = Some o →
  ¬ (obs_dist o == 0)%Q →
  (off_road_candidate_lane s = None ↔ intersect_start_time s = None) →
  ∃ s', step lanes s m = Normal s' ∧
    off_road_candidate_lane s' = None ∧ intersect_start_time s' = None ∧
    dist_list s' =
      match intersect_start_time s with
      | None => dist_list s ++ [obs_centre_dist o]
      | Some _ => dist_list s
      end.
Proof.
  intros Hobs Hd Hboth.
  eexists. split; [by apply step_observed_off_road|].
  destruct (before_off_road_fields lanes o s) as (Hc' & HT' & Hl').
  destruct (intersect_start_time s) as [T|] eqn:HT.
  - rewrite (off_road_release _ _ _ _ _ T) by done.
    change (dist_list (set_off_road None None ?x)) with (dist_list x).
    by rewrite Hl'.
  - rewrite off_road_clear by done. rewrite dist_list_append, Hl'.
    split_and!; [|done..].
    change (off_road_candidate_lane (append_dist ?v ?x))
      with (off_road_candidate_lane x).
    rewrite Hc'. by apply Hboth.
Qed.

(** The statement of X18 for a step in the middle of lane [a] with nothing
    registered. *)
Lemma clear_step_records_clearance_witness :
  ∃ s', step Strip.lanes StripSessions.started StripSessions.cruise = Normal s' ∧
    off_road_candidate_lane s' = None ∧ intersect_start_time s' = None ∧
    dist_list s' =
      match intersect_start_time StripSessions.started with
      | None => dist_list StripSessions.started
                  ++ [obs_centre_dist StripSessions.cruise_observation]
      | Some _ => dist_list StripSessions.started
      end.
Proof.
  apply (clear_step_records_clearance Strip.lanes StripSessions.started
           StripSessions.cruise StripSessions.cruise_observation).
  - compute_eq.
  - compute_ne.
  - split; intros _; compute_eq.
Defined.

(** X19.  A localization step for which the resolver finds no candidate
    (the vehicle is off every lane) sets the current lane to [None] and does
    nothing else, inside or after the warm-up: no traveled lane, margin or
    sample is recorded, and a registered boundary touch stays registered
    with its start time. *)
Theorem off_lane_step_only_clears_lane `{C : Collaborators}
    (lanes : gmap string Lane) (s : state) (m : Message) (h : Header) (p : Pose) :
  channel_name m = localization_channel →
  header (parsed_msg m) = Some h →
  pose (parsed_msg m) = Some p →
  candidates lanes p s = [] →
  ∃ s', step lanes s m = Normal s' ∧
    current_lane s' = None ∧
    traveled_lanes s' = traveled_lanes s ∧ min_speed s' = min_speed s ∧
    dist_list s' = dist_list s ∧ next_lanes s' = next_lanes s ∧
    off_road_candidate_lane s' = off_road_candidate_lane s ∧
    intersect_start_time s' = intersect_start_time s.
Proof.
  intros Hc Hh Hp Hnone.
  rewrite (step_localization _ _ _ h) by done.
  unfold on_localization. rewrite Hp. simpl.
  unfold candidates in Hnone. rewrite Hnone. simpl.
  destruct (init_timestamp s) as [t0|]; [|by eexists].
  destruct (Qle_bool (timestamp_sec h - t0) 5); by eexists.
Qed.

(** The statement of X19 for a vehicle that leaves the lanes while a touch
    is registered. *)
Lemma off_lane_step_only_clears_lane_witness :
  ∃ s', step Strip.lanes StripSessions.grazed (astray 11) = Normal s' ∧
    current_lane s' = None ∧
    traveled_lanes s' = traveled_lanes StripSessions.grazed ∧
    min_speed s' = min_speed StripSessions.grazed ∧
    dist_list s' = dist_list StripSessions.grazed ∧
    next_lanes s' = next_lanes StripSessions.grazed ∧
    off_road_candidate_lane s' = off_road_candidate_lane StripSessions.grazed ∧
    intersect_start_time s' = intersect_start_time StripSessions.grazed.
Proof.
  apply (off_lane_step_only_clears_lane Strip.lanes StripSessions.grazed
           (astray 11) {| timestamp_sec := 11 |}
           {| position := {| Vec.x := 20; Vec.y := 0 |};
              linear_velocity := {| Vec.x := 0; Vec.y := 0 |} |}).
  - reflexivity.
  - reflexivity.
  - reflexivity.
  - compute_eq.
Defined.

(** ** [walk_messages] *)

Lemma Qlt_bool_iff (a b : Q) : Qlt_bool a b = true ↔ (a < b)%Q.
Proof.
  unfold Qlt_bool. destruct (Qle_bool b a) eqn:E; simpl.
  - apply Qle_bool_iff in E. split; [done|]. intros Hlt.
    exfalso. by apply (Qlt_not_le a b).
  - split; [|done]. intros _. apply Qnot_le_lt. intros Hle.
    apply Qle_bool_iff in Hle. congruence.
Qed.

Lemma least_cons start v values :
  least start (v :: values) = least (if Qlt_bool v start then v else start) values.
Proof. done. Qed.

(** X20.  The minimum loops of [walk_messages] (lines 230-235), started at
    [sys.maxsize] or any other value: the result is at most the start value
    and at most every entry of the list, and it is the start value or an
    entry of the list.  For an empty list it is the start value, the "no
    data" sentinel. *)
Theorem least_is_minimum (start : Q) (values : list Q) :
  (least start values <= start)%Q ∧
  Forall (λ v, (least start values <= v)%Q) values ∧
  (least start values = start ∨ least start values ∈ values) ∧
  least start [] = start.
Proof.
  split_and!; [| | |done].
  - revert start. induction values as [|v values IH]; intros start;
      [apply Qle_refl|].
    rewrite least_cons. eapply Qle_trans; [apply IH|].
    destruct (Qlt_bool v start) eqn:E; [|apply Qle_refl].
    apply Qlt_bool_iff in E. by apply Qlt_le_weak.
  - revert start. induction values as [|v values IH]; intros start;
      [constructor|].
    rewrite least_cons. constructor; [|apply IH].
    assert (Hle : ∀ a l, (least a l <= a)%Q).
    { intros a l. revert a. induction l as [|w l IHl]; intros a;
        [apply Qle_refl|].
      rewrite least_cons. eapply Qle_trans; [apply IHl|].
      destruct (Qlt_bool w a) eqn:E; [|apply Qle_refl].
      apply Qlt_bool_iff in E. by apply Qlt_le_weak. }
    eapply Qle_trans; [apply Hle|].
    destruct (Qlt_bool v start) eqn:E; [apply Qle_refl|].
    apply Qnot_lt_le. intros Hlt. apply Qlt_bool_iff in Hlt. congruence.
  - revert start. induction values as [|v values IH]; intros start;
      [by left|].
    rewrite least_cons.
    destruct (IH (if Qlt_bool v start then v else start)) as [->|Hin].
    + destruct (Qlt_bool v start); [right; apply list_elem_of_here|by left].
    + right. by apply list_elem_of_further.
Qed.

Section Reporting.
Context `{C : Collaborators}.
Variable round : Q → Z → Q.
Implicit Types (lanes : gmap string Lane) (s : state) (m : Message).

(** The running minimum is the sentinel or below it. *)
Lemma step_min_sentinel lanes s m :
  min_speed s = inject_Z sys_maxsize ∨ (min_speed s < inject_Z sys_maxsize)%Q →
  min_speed (state_of (step lanes s m)) = inject_Z sys_maxsize ∨
  (min_speed (state_of (step lanes s m)) < inject_Z sys_maxsize)%Q.
Proof.
  intros Hs.
  destruct (observe lanes s m) as [o|] eqn:Hobs; cycle 1.
  { by destruct (step_unobserved_more lanes s m Hobs) as (_ & -> & _). }
  rewrite (step_observed_off_road _ _ _ _ Hobs).
  destruct (before_off_road_more lanes o s) as (_ & _ & _ & _ & Hm).
  pose proof (off_road_detection_frame (obs_time o) (obs_lane o) (obs_dist o)
                (obs_centre_dist o) (before_off_road lanes o s)) as Hf.
  cbv zeta in Hf. destruct Hf as (_ & _ & _ & _ & Hf & _).
  simpl. rewrite Hf, Hm. unfold speeding_detection.
  destruct (negb (Qeq_bool (obs_limit o) 0) || _); [|done]. simpl.
  destruct (Qlt_bool (obs_limit o - obs_speed o) (min_speed s)) eqn:E; [|done].
  apply Qlt_bool_iff in E. simpl. right.
  destruct Hs as [<-|Hs]; [done|]. by eapply Qlt_trans.
Qed.

Lemma run_min_sentinel lanes msgs s :
  min_speed s = inject_Z sys_maxsize ∨ (min_speed s < inject_Z sys_maxsize)%Q →
  min_speed (state_of (run lanes s msgs)) = inject_Z sys_maxsize ∨
  (min_speed (state_of (run lanes s msgs)) < inject_Z sys_maxsize)%Q.
Proof.
  revert s. induction msgs as [|m msgs IH]; intros s Hs; [done|].
  pose proof (step_min_sentinel lanes s m Hs) as Hstep.
  simpl. destruct (step lanes s m); [by apply IH|done].
Qed.

Lemma least_single (v : Q) :
  v = inject_Z sys_maxsize ∨ (v < inject_Z sys_maxsize)%Q →
  least (inject_Z sys_maxsize) [v] = v.
Proof.
  intros [->|Hlt]; [done|].
  unfold least. simpl. apply Qlt_bool_iff in Hlt. by rewrite Hlt.
Qed.

(** The loop over the traveled lanes succeeds when [lanes] knows them all,
    and pairs each lane with its rounded limit. *)
Lemma lane_limits_Ok ndigits lanes (traveled : list string) :
  (∀ l, l ∈ traveled → is_Some (lanes !! l)) →
  ∃ pairs, lane_limits round ndigits lanes traveled = Ok pairs ∧
    pairs.*1 = traveled ∧
    Forall (λ pr, ∃ lane, lanes !! pr.1 = Some lane ∧
                          pr.2 = round (speed_limit lane * 3.6)%Q ndigits) pairs.
Proof.
  induction traveled as [|l traveled IH]; intros Hknown.
  { exists []. by split_and!. }
  destruct (Hknown l (list_elem_of_here _ _)) as [lane Hl].
  destruct IH as (pairs & Hp & Hfst & Hall).
  { intros l' Hin. apply Hknown. by apply list_elem_of_further. }
  simpl. rewrite Hl, Hp. eexists. split; [done|]. split.
  - rewrite fmap_cons. by f_equal.
  - constructor; [by exists lane|done].
Qed.

(** What [walk_messages] does after a pass that ended normally. *)
Lemma walk_messages_Normal (messages : list Message) lanes s :
  run lanes (initial_state []) messages = Normal s →
  walk_messages round messages lanes false = Returns None ∧
  ∃ pairs,
    walk_messages round messages lanes true =
      Returns (Some {| summary_traveled_lanes := pairs;
                       summary_min_speed := min_speed s;
                       summary_boundary_dist :=
                         least (inject_Z sys_maxsize) (dist_list s) |}) ∧
    pairs.*1 = elements (traveled_lanes s) ∧
    Forall (λ pr, ∃ lane, lanes !! pr.1 = Some lane ∧
                          pr.2 = round (speed_limit lane * 3.6)%Q 3) pairs.
Proof.
  intros Hrun.
  assert (Hknown : ∀ l, l ∈ elements (traveled_lanes s) → is_Some (lanes !! l)).
  { intros l Hl. apply elem_of_elements in Hl.
    eapply (run_traveled_known lanes messages (initial_state [])); [|done..].
    intros l' Hl'. by apply not_elem_of_empty in Hl'. }
  assert (Hmin : least (inject_Z sys_maxsize) [min_speed s] = min_speed s).
  { apply least_single.
    pose proof (run_min_sentinel lanes messages (initial_state [])
                  (or_introl eq_refl)) as Hs.
    by rewrite Hrun in Hs. }
  unfold walk_messages, walk_msg_section. rewrite Hrun.
  rewrite (left_id_L ∅ (∪)). cbn [app]. rewrite Hmin.
  destruct (lane_limits_Ok 1 lanes _ Hknown) as (pairs1 & -> & _).
  destruct (lane_limits_Ok 3 lanes _ Hknown) as (pairs & -> & Hfst & Hall).
  split; [done|]. by exists pairs.
Qed.

End Reporting.

(** X21.  When the pass over the messages ends normally, [walk_messages]
    returns: none of its reads [lanes[lane]] for the traveled lanes fails.
    With a [return_dict], the entries it stores are one pair per traveled
    lane, of the lane and its limit in km/h rounded to 3 digits; the minimum
    margin of the pass; and the least recorded boundary distance, or
    [sys.maxsize] when none was recorded. *)
Theorem walk_messages_reports `{C : Collaborators} (round : Q → Z → Q)
    (messages : list Message) (lanes : gmap string Lane) (s : state) :
  run lanes (initial_state []) messages = Normal s →
  walk_messages round messages lanes false = Returns None ∧
  ∃ pairs,
    walk_messages round messages lanes true =
      Returns (Some {| summary_traveled_lanes := pairs;
                       summary_min_speed := min_speed s;
                       summary_boundary_dist :=
                         least (inject_Z sys_maxsize) (dist_list s) |}) ∧
    pairs.*1 = elements (traveled_lanes s) ∧
    Forall (λ pr, ∃ lane, lanes !! pr.1 = Some lane ∧
                          pr.2 = round (speed_limit lane * 3.6)%Q 3) pairs.
Proof. apply walk_messages_Normal. Qed.

(** The statement of X21 on a session with one step after the warm-up. *)
Lemma walk_messages_reports_witness :
  walk_messages round_half_up [StripSessions.approach; StripSessions.cruise]
    Strip.lanes false = Returns None ∧
  ∃ pairs,
    walk_messages round_half_up [StripSessions.approach; StripSessions.cruise]
      Strip.lanes true =
      Returns (Some {| summary_traveled_lanes := pairs;
                       summary_min_speed :=
                         min_speed (state_of (run Strip.lanes (initial_state [])
                           [StripSessions.approach; StripSessions.cruise]));
                       summary_boundary_dist :=
                         least (inject_Z sys_maxsize)
                           (dist_list (state_of (run Strip.lanes (initial_state [])
                              [StripSessions.approach; StripSessions.cruise]))) |}) ∧
    pairs.*1 =
      elements (traveled_lanes (state_of (run Strip.lanes (initial_state [])
                  [StripSessions.approach; StripSessions.cruise]))) ∧
    Forall (λ pr, ∃ lane, Strip.lanes !! pr.1 = Some lane ∧
                          pr.2 = round_half_up (speed_limit lane * 3.6)%Q 3) pairs.
Proof.
  apply (walk_messages_reports round_half_up
           [StripSessions.approach; StripSessions.cruise] Strip.lanes).
  compute_eq.
Defined.

(** X22.  An exception leaves [walk_messages] only when it left the loop of
    the pass, and it is that exception: after a pass that ended normally the
    reads [lanes[lane]] for the traveled lanes do not fail, with or without a
    [return_dict]. *)
Theorem walk_messages_raises_from_the_pass `{C : Collaborators}
    (round : Q → Z → Q) (messages : list Message) (lanes : gmap string Lane)
    (has_return_dict : bool) (e : exception) :
  walk_messages round messages lanes has_return_dict = Raises e →
  ∃ s, run lanes (initial_state []) messages = Raised e s.
Proof.
  destruct (run lanes (initial_state []) messages) as [s|e' s] eqn:Hrun.
  - destruct (walk_messages_Normal round messages lanes s Hrun)
      as (Hnone & pairs & Hsome & _).
    destruct has_return_dict; congruence.
  - unfold walk_messages, walk_msg_section. rewrite Hrun. intros [= <-].
    by exists s.
Qed.

(** The statement of X22 on a session with a localization message without a
    pose. *)
Lemma walk_messages_raises_from_the_pass_witness :
  ∃ s, run Strip.lanes (initial_state [])
         [StripSessions.approach; StripSessions.no_pose 3; StripSessions.cruise] =
       Raised AttributeError s.
Proof.
  apply (walk_messages_raises_from_the_pass round_half_up
           [StripSessions.approach; StripSessions.no_pose 3; StripSessions.cruise]
           Strip.lanes true AttributeError).
  compute_eq.
Defined.
